(** * The JARVIS chat client: session log and WebSocket lifecycle

    A shallow embedding of the [JarvisApp] component of
    [anime-jarvis-ai/src/pages/jarvis_psycho_pass_app.tsx]: its React state,
    the WebSocket handlers installed by [connectWebSocket], the inbound
    dispatcher [handleWebSocketMessage], and the two user actions
    [handleSendMessage] and [handleFileSelect].

    Conventions.
    - A JS string is the list of its UTF-16 code units.
    - [Date.now()] and [new Date()] are two separate clock reads; a handler
      that performs them receives both readings as arguments [now], [date].
    - A JS object with optional properties is a record whose optional
      fields are [option]s; [None] is the absent property ([undefined]).
    - [useState] cells and [useRef] cells are fields of one record [App];
      a functional update [setMessages(prev => ...)] is function application
      on the current field. *)

From Stdlib Require Import Ascii String ZArith NArith Lia.
From stdpp Require Import base option numbers list.

Local Open Scope N_scope.

(** ** JavaScript strings *)

Definition jsstring := list N.

(** A source literal made of ASCII characters only. *)
Definition lit (s : string) : jsstring :=
  map N_of_ascii (list_ascii_of_string s).

(** ECMAScript [WhiteSpace] and [LineTerminator] code points, the set
    [String.prototype.trim] strips. *)
Definition isWhiteSpace (c : N) : bool :=
  (c =? 0x9) || (c =? 0xA) || (c =? 0xB) || (c =? 0xC) || (c =? 0xD)
  || (c =? 0x20) || (c =? 0xA0) || (c =? 0x1680)
  || ((0x2000 <=? c) && (c <=? 0x200A))
  || (c =? 0x2028) || (c =? 0x2029) || (c =? 0x202F) || (c =? 0x205F)
  || (c =? 0x3000) || (c =? 0xFEFF).

Fixpoint trimStart (s : jsstring) : jsstring :=
  match s with
  | [] => []
  | c :: s' => if isWhiteSpace c then trimStart s' else s
  end.

Definition trimEnd (s : jsstring) : jsstring :=
  reverse (trimStart (reverse s)).

Definition trim (s : jsstring) : jsstring := trimEnd (trimStart s).

(** Truthiness of a string: only the empty string is falsy. *)
Definition truthy_string (s : jsstring) : bool :=
  match s with [] => false | _ :: _ => true end.

(** Truthiness of an optional boolean property: [undefined] and [false]
    are falsy. *)
Definition truthy (b : option bool) : bool :=
  match b with Some true => true | _ => false end.

(** [String(n)] for an array length. *)
Fixpoint uint_units (d : Decimal.uint) : jsstring :=
  match d with
  | Decimal.Nil => []
  | Decimal.D0 d => 48 :: uint_units d
  | Decimal.D1 d => 49 :: uint_units d
  | Decimal.D2 d => 50 :: uint_units d
  | Decimal.D3 d => 51 :: uint_units d
  | Decimal.D4 d => 52 :: uint_units d
  | Decimal.D5 d => 53 :: uint_units d
  | Decimal.D6 d => 54 :: uint_units d
  | Decimal.D7 d => 55 :: uint_units d
  | Decimal.D8 d => 56 :: uint_units d
  | Decimal.D9 d => 57 :: uint_units d
  end.

Definition number_toString (n : nat) : jsstring :=
  uint_units (Nat.to_uint n).

(** [parts.join(sep)] *)
Fixpoint join (sep : jsstring) (parts : list jsstring) : jsstring :=
  match parts with
  | [] => []
  | [p] => p
  | p :: rest => p ++ sep ++ join sep rest
  end.

(** ** Messages *)

(** The four values the [type] property of a message takes in the source:
    ['system'], ['assistant'], ['user'], ['error']. *)
Inductive MsgType := TSystem | TAssistant | TUser | TError.

#[export] Instance MsgType_eq_dec : EqDecision MsgType.
Proof. solve_decision. Defined.

(** A server-assigned file descriptor out of [result.files]; opaque to the
    client. *)
Record FileRef := { ref_name : jsstring; ref_data : jsstring }.

#[export] Instance FileRef_eq_dec : EqDecision FileRef.
Proof. solve_decision. Defined.

(** One element of the [messages] array.  [streaming] is only written by
    the [chunk] and [complete] cases; [webSearch] and [thinking] only by
    [handleSendMessage]; [files] only by [handleFileSelect]. *)
Record Message := {
  id : Z;
  type : MsgType;
  content : jsstring;
  timestamp : Z;
  streaming : option bool;
  webSearch : option bool;
  thinking : option bool;
  files : option (list FileRef);
}.

#[export] Instance Message_eq_dec : EqDecision Message.
Proof. solve_decision. Defined.

(** [{ ...m, content: c }] *)
Definition with_content (m : Message) (c : jsstring) : Message :=
  {| id := id m; type := type m; content := c; timestamp := timestamp m;
     streaming := streaming m; webSearch := webSearch m;
     thinking := thinking m; files := files m |}.

(** [{ ...m, streaming: b }] *)
Definition with_streaming (m : Message) (b : bool) : Message :=
  {| id := id m; type := type m; content := content m;
     timestamp := timestamp m; streaming := Some b;
     webSearch := webSearch m; thinking := thinking m; files := files m |}.

(** [{ id: Date.now(), type, content, timestamp: new Date() }] *)
Definition plain_message (now : Z) (t : MsgType) (c : jsstring) (date : Z)
  : Message :=
  {| id := now; type := t; content := c; timestamp := date;
     streaming := None; webSearch := None; thinking := None;
     files := None |}.

(** ** Completions *)

(** How a call completes: a normal return, or an exception that
    propagates to the caller.  Either way the state reached is kept: an
    exception does not roll back earlier writes. *)
Inductive Completion (A : Type) :=
| Returns (s : A)
| Throws (err : jsstring) (s : A).
Arguments Returns {A} s.
Arguments Throws {A} err s.

Definition final {A} (c : Completion A) : A :=
  match c with Returns s => s | Throws _ s => s end.

Definition throws {A} (c : Completion A) : option jsstring :=
  match c with Returns _ => None | Throws e _ => Some e end.

(** ** The WebSocket object *)

Inductive ReadyState := CONNECTING | OPEN | CLOSING | CLOSED.

#[export] Instance ReadyState_eq_dec : EqDecision ReadyState.
Proof. solve_decision. Defined.

(** The object [handleSendMessage] serialises with [JSON.stringify]:
    [{ type, message, webSearch, thinkingMode, model }]. *)
Record ChatFrame := {
  out_type : jsstring;
  out_message : jsstring;
  out_webSearch : bool;
  out_thinkingMode : bool;
  out_model : jsstring;
}.

(** A socket as the component sees it: its [readyState] and the frames
    handed to [send] and accepted for transmission, oldest first. *)
Record WebSocket := {
  readyState : ReadyState;
  sent : list ChatFrame;
}.

(** [ws.send(frame)] of the browser API: throws while [CONNECTING],
    queues the frame while [OPEN], drops it otherwise. *)
Definition ws_send (ws : WebSocket) (f : ChatFrame) : Completion WebSocket :=
  match readyState ws with
  | CONNECTING => Throws (lit "InvalidStateError") ws
  | OPEN => Returns {| readyState := OPEN; sent := sent ws ++ [f] |}
  | CLOSING | CLOSED => Returns ws
  end.

(** [ws.close()] of the browser API: starts the closing handshake, which
    moves a socket that is not yet closing to [CLOSING]; the [close] event
    is dispatched later, by the browser. *)
Definition ws_close (ws : WebSocket) : WebSocket :=
  match readyState ws with
  | CONNECTING | OPEN => {| readyState := CLOSING; sent := sent ws |}
  | CLOSING | CLOSED => ws
  end.

(** [new WebSocket(WS_URL)] *)
Definition new_WebSocket : WebSocket :=
  {| readyState := CONNECTING; sent := [] |}.

(** ** Component state *)

(** The values [setConnectionStatus] is called with: ['disconnected'],
    ['connected'], ['error']. *)
Inductive ConnStatus := Disconnected | Connected | ConnError.

#[export] Instance ConnStatus_eq_dec : EqDecision ConnStatus.
Proof. solve_decision. Defined.

(** The [useState] and [useRef] cells of [JarvisApp] the session logic
    reads or writes, and the resources it owns.  Every socket constructed
    so far is kept in [sockets], because its handlers stay installed after
    [wsRef.current] moves on; [wsRef] holds the position of the current
    one.  [reconnectTimers] counts the pending
    [setTimeout(connectWebSocket, 3000)] callbacks (the source keeps no
    handle on them) and [statusInterval] tells whether the polling
    interval is live. *)
Record App := {
  messages : list Message;
  inputText : jsstring;
  isThinking : bool;
  webSearchEnabled : bool;
  thinkingMode : bool;
  selectedModel : jsstring;
  connectionStatus : ConnStatus;
  currentMessageRef : jsstring;
  sockets : list WebSocket;
  wsRef : option nat;
  reconnectTimers : nat;
  statusInterval : bool;
}.

(** State on first render. *)
Definition initial : App :=
  {| messages := []; inputText := []; isThinking := false;
     webSearchEnabled := false; thinkingMode := false;
     selectedModel := lit "phi3:3.8b"; connectionStatus := Disconnected;
     currentMessageRef := []; sockets := []; wsRef := None;
     reconnectTimers := 0%nat; statusInterval := false |}.

Definition setMessages (f : list Message → list Message) (s : App) : App :=
  {| messages := f (messages s); inputText := inputText s;
     isThinking := isThinking s; webSearchEnabled := webSearchEnabled s;
     thinkingMode := thinkingMode s; selectedModel := selectedModel s;
     connectionStatus := connectionStatus s;
     currentMessageRef := currentMessageRef s; sockets := sockets s;
     wsRef := wsRef s; reconnectTimers := reconnectTimers s;
     statusInterval := statusInterval s |}.

Definition setInputText (v : jsstring) (s : App) : App :=
  {| messages := messages s; inputText := v;
     isThinking := isThinking s; webSearchEnabled := webSearchEnabled s;
     thinkingMode := thinkingMode s; selectedModel := selectedModel s;
     connectionStatus := connectionStatus s;
     currentMessageRef := currentMessageRef s; sockets := sockets s;
     wsRef := wsRef s; reconnectTimers := reconnectTimers s;
     statusInterval := statusInterval s |}.

Definition setIsThinking (v : bool) (s : App) : App :=
  {| messages := messages s; inputText := inputText s;
     isThinking := v; webSearchEnabled := webSearchEnabled s;
     thinkingMode := thinkingMode s; selectedModel := selectedModel s;
     connectionStatus := connectionStatus s;
     currentMessageRef := currentMessageRef s; sockets := sockets s;
     wsRef := wsRef s; reconnectTimers := reconnectTimers s;
     statusInterval := statusInterval s |}.

Definition setWebSearchEnabled (v : bool) (s : App) : App :=
  {| messages := messages s; inputText := inputText s;
     isThinking := isThinking s; webSearchEnabled := v;
     thinkingMode := thinkingMode s; selectedModel := selectedModel s;
     connectionStatus := connectionStatus s;
     currentMessageRef := currentMessageRef s; sockets := sockets s;
     wsRef := wsRef s; reconnectTimers := reconnectTimers s;
     statusInterval := statusInterval s |}.

Definition setThinkingMode (v : bool) (s : App) : App :=
  {| messages := messages s; inputText := inputText s;
     isThinking := isThinking s; webSearchEnabled := webSearchEnabled s;
     thinkingMode := v; selectedModel := selectedModel s;
     connectionStatus := connectionStatus s;
     currentMessageRef := currentMessageRef s; sockets := sockets s;
     wsRef := wsRef s; reconnectTimers := reconnectTimers s;
     statusInterval := statusInterval s |}.

Definition setSelectedModel (v : jsstring) (s : App) : App :=
  {| messages := messages s; inputText := inputText s;
     isThinking := isThinking s; webSearchEnabled := webSearchEnabled s;
     thinkingMode := thinkingMode s; selectedModel := v;
     connectionStatus := connectionStatus s;
     currentMessageRef := currentMessageRef s; sockets := sockets s;
     wsRef := wsRef s; reconnectTimers := reconnectTimers s;
     statusInterval := statusInterval s |}.

Definition setConnectionStatus (v : ConnStatus) (s : App) : App :=
  {| messages := messages s; inputText := inputText s;
     isThinking := isThinking s; webSearchEnabled := webSearchEnabled s;
     thinkingMode := thinkingMode s; selectedModel := selectedModel s;
     connectionStatus := v;
     currentMessageRef := currentMessageRef s; sockets := sockets s;
     wsRef := wsRef s; reconnectTimers := reconnectTimers s;
     statusInterval := statusInterval s |}.

Definition setCurrentMessageRef (v : jsstring) (s : App) : App :=
  {| messages := messages s; inputText := inputText s;
     isThinking := isThinking s; webSearchEnabled := webSearchEnabled s;
     thinkingMode := thinkingMode s; selectedModel := selectedModel s;
     connectionStatus := connectionStatus s;
     currentMessageRef := v; sockets := sockets s;
     wsRef := wsRef s; reconnectTimers := reconnectTimers s;
     statusInterval := statusInterval s |}.

Definition setSockets (f : list WebSocket → list WebSocket) (s : App) : App :=
  {| messages := messages s; inputText := inputText s;
     isThinking := isThinking s; webSearchEnabled := webSearchEnabled s;
     thinkingMode := thinkingMode s; selectedModel := selectedModel s;
     connectionStatus := connectionStatus s;
     currentMessageRef := currentMessageRef s; sockets := f (sockets s);
     wsRef := wsRef s; reconnectTimers := reconnectTimers s;
     statusInterval := statusInterval s |}.

Definition setWsRef (v : option nat) (s : App) : App :=
  {| messages := messages s; inputText := inputText s;
     isThinking := isThinking s; webSearchEnabled := webSearchEnabled s;
     thinkingMode := thinkingMode s; selectedModel := selectedModel s;
     connectionStatus := connectionStatus s;
     currentMessageRef := currentMessageRef s; sockets := sockets s;
     wsRef := v; reconnectTimers := reconnectTimers s;
     statusInterval := statusInterval s |}.

Definition setReconnectTimers (f : nat → nat) (s : App) : App :=
  {| messages := messages s; inputText := inputText s;
     isThinking := isThinking s; webSearchEnabled := webSearchEnabled s;
     thinkingMode := thinkingMode s; selectedModel := selectedModel s;
     connectionStatus := connectionStatus s;
     currentMessageRef := currentMessageRef s; sockets := sockets s;
     wsRef := wsRef s; reconnectTimers := f (reconnectTimers s);
     statusInterval := statusInterval s |}.

Definition setStatusInterval (v : bool) (s : App) : App :=
  {| messages := messages s; inputText := inputText s;
     isThinking := isThinking s; webSearchEnabled := webSearchEnabled s;
     thinkingMode := thinkingMode s; selectedModel := selectedModel s;
     connectionStatus := connectionStatus s;
     currentMessageRef := currentMessageRef s; sockets := sockets s;
     wsRef := wsRef s; reconnectTimers := reconnectTimers s;
     statusInterval := v |}.

(** [wsRef.current], resolved to the socket it points at. *)
Definition current_socket (s : App) : option (nat * WebSocket) :=
  match wsRef s with
  | Some i => match sockets s !! i with
              | Some ws => Some (i, ws)
              | None => None
              end
  | None => None
  end.

(** ** Inbound frames *)

(** A parsed inbound frame, with the properties the dispatcher reads:
    [data.type], [data.status], [data.full] and [data.message] (the last
    already converted to a string, as the template literal does).
    [data_status] is [None] when the property is absent or not a string. *)
Record WsData := {
  data_type : jsstring;
  data_status : option jsstring;
  data_full : jsstring;
  data_message : jsstring;
}.

(** The updater of the [chunk] case. *)
Definition chunk_update (full : jsstring) (now date : Z)
    (prev : list Message) : list Message :=
  let fresh :=
    {| id := now; type := TAssistant; content := full; timestamp := date;
       streaming := Some true; webSearch := None; thinking := None;
       files := None |} in
  match last prev with
  | Some lastMsg =>
      if bool_decide (type lastMsg = TAssistant) && truthy (streaming lastMsg)
      then take (length prev - 1) prev ++ [with_content lastMsg full]
      else prev ++ [fresh]
  | None => prev ++ [fresh]
  end.

(** The updater of the [complete] case. *)
Definition complete_update (prev : list Message) : list Message :=
  match last prev with
  | Some lastMsg =>
      if truthy (streaming lastMsg)
      then take (length prev - 1) prev ++ [with_streaming lastMsg false]
      else prev
  | None => prev
  end.

(** [handleWebSocketMessage(data)]: a [switch] on [data.type] with no
    [default] branch. *)
Definition handleWebSocketMessage (data : WsData) (now date : Z) (s : App)
  : App :=
  if bool_decide (data_type data = lit "status") then
    if bool_decide (data_status data = Some (lit "thinking"))
    then setIsThinking true s
    else s
  else if bool_decide (data_type data = lit "chunk") then
    setMessages (chunk_update (data_full data) now date)
      (setCurrentMessageRef (data_full data) s)
  else if bool_decide (data_type data = lit "complete") then
    setMessages complete_update
      (setCurrentMessageRef [] (setIsThinking false s))
  else if bool_decide (data_type data = lit "error") then
    setMessages
      (λ prev, prev ++ [plain_message now TError
                          (lit "Error: " ++ data_message data) date])
      (setIsThinking false s)
  else if bool_decide (data_type data = lit "pong") then s
  else s.

(** ** Socket handlers installed by [connectWebSocket] *)

Definition ws_onopen (now date : Z) (s : App) : App :=
  setMessages
    (λ prev, prev ++ [plain_message now TSystem
                        (lit "Connected to JARVIS. Ready to assist!") date])
    (setConnectionStatus Connected s).

(** [ws.onmessage]: [JSON.parse(event.data)], then the dispatcher.  The
    argument is [None] when the text does not parse to an object, in which
    case the handler throws before touching the state. *)
Definition ws_onmessage (parsed : option WsData) (now date : Z) (s : App)
  : Completion App :=
  match parsed with
  | None => Throws (lit "SyntaxError") s
  | Some data => Returns (handleWebSocketMessage data now date s)
  end.

Definition ws_onerror (s : App) : App :=
  setConnectionStatus ConnError s.

(** [ws.onclose]: the status goes to ['disconnected'] and a reconnect is
    scheduled, whatever caused the closure. *)
Definition ws_onclose (s : App) : App :=
  setReconnectTimers S (setConnectionStatus Disconnected s).

(** [connectWebSocket()].  [ctor_throws] tells whether the constructor
    call throws, which the [try] turns into the ['error'] status. *)
Definition connectWebSocket (ctor_throws : bool) (s : App) : App :=
  if ctor_throws then setConnectionStatus ConnError s
  else setWsRef (Some (length (sockets s)))
         (setSockets (λ l, l ++ [new_WebSocket]) s).

(** ** Mount and unmount *)

(** Body of the mount effect, as far as the session is concerned. *)
Definition mount_effect (ctor_throws : bool) (s : App) : App :=
  setStatusInterval true (connectWebSocket ctor_throws s).

(** The cleanup function the mount effect returns:
    [clearInterval(statusInterval)], then [wsRef.current.close()] when the
    ref is set. *)
Definition cleanup (s : App) : App :=
  let s1 := setStatusInterval false s in
  match current_socket s1 with
  | Some (i, ws) => setSockets (λ l, <[i := ws_close ws]> l) s1
  | None => s1
  end.

(** ** User actions *)

Definition handleSendMessage (now date : Z) (s : App) : Completion App :=
  if negb (truthy_string (trim (inputText s)))
     || negb (bool_decide (connectionStatus s = Connected))
  then Returns s
  else
    let newMessage :=
      {| id := now; type := TUser; content := inputText s;
         timestamp := date; streaming := None;
         webSearch := Some (webSearchEnabled s);
         thinking := Some (thinkingMode s); files := None |} in
    let s1 := setInputText [] (setMessages (λ prev, prev ++ [newMessage]) s) in
    match current_socket s with
    | Some (i, ws) =>
        if bool_decide (readyState ws = OPEN) then
          let frame :=
            {| out_type := lit "chat"; out_message := inputText s;
               out_webSearch := webSearchEnabled s;
               out_thinkingMode := thinkingMode s;
               out_model := selectedModel s |} in
          match ws_send ws frame with
          | Returns ws' => Returns (setSockets (λ l, <[i := ws']> l) s1)
          | Throws e ws' => Throws e (setSockets (λ l, <[i := ws']> l) s1)
          end
        else Returns s1
    | None => Returns s1
    end.

(** A selected file; only [name] is read. *)
Record File := { file_name : jsstring }.

(** The parsed body of the [/api/upload] response, when it is a value
    whose properties can be read (anything but [null]): the truthiness
    of [result.success] and the [result.files] property. *)
Record UploadResult := {
  result_success : bool;
  result_files : option (list FileRef);
}.

(** What the [try] block of [handleFileSelect] runs into: [fetch]
    rejects; [response.json()] rejects; the body parses to [null], so
    that reading [result.success] throws a [TypeError]; or a body is
    parsed whose properties can be read.  The first three end in the
    [catch] block and carry [error.message]. *)
Inductive UploadOutcome :=
| FetchRejected (message : jsstring)
| JsonRejected (message : jsstring)
| ParsedNull (message : jsstring)
| Parsed (result : UploadResult).

Definition paperclip : jsstring := [0xD83D; 0xDCCE].

(** [handleFileSelect(e)], taken at the point where the awaited request
    has settled with [outcome]; no request is made for an empty
    selection. *)
Definition handleFileSelect (fs : list File) (outcome : UploadOutcome)
    (now date : Z) (s : App) : App :=
  if bool_decide (length fs = 0%nat) then s
  else
    match outcome with
    | Parsed result =>
        if result_success result then
          let fileMessage :=
            {| id := now; type := TUser;
               content := paperclip ++ lit " Uploaded "
                          ++ number_toString (length fs) ++ lit " file(s): "
                          ++ join (lit ", ") (map file_name fs);
               timestamp := date; streaming := None; webSearch := None;
               thinking := None; files := result_files result |} in
          setMessages (λ prev, prev ++ [fileMessage]) s
        else s
    | FetchRejected message | JsonRejected message | ParsedNull message =>
        setMessages
          (λ prev, prev ++ [plain_message now TError
                              (lit "Failed to upload files: " ++ message)
                              date])
          s
    end.

(** ** The component as a transition system *)

(** Everything that can happen to a mounted component: the two effect
    phases, what the browser does to a socket, a reconnect timer firing,
    and the user's input.  Clock readings and the outcome of the upload
    request come with the event. *)
Inductive Event :=
| Mount (ctor_throws : bool)
| Unmount
| SocketOpen (i : nat) (now date : Z)
| SocketMessage (i : nat) (parsed : option WsData) (now date : Z)
| SocketError (i : nat)
| SocketClosing (i : nat)
| SocketClose (i : nat)
| ReconnectTimer (ctor_throws : bool)
| InputChange (text : jsstring)
| ToggleWebSearch
| ToggleThinkingMode
| SelectModel (model : jsstring)
| Send (now date : Z)
| FileSelect (fs : list File) (outcome : UploadOutcome) (now date : Z).

(** The browser moves socket [i] to [rs], provided its present state
    satisfies [ok]. *)
Definition socket_to (i : nat) (ok : ReadyState → bool) (rs : ReadyState)
    (s : App) : option App :=
  match sockets s !! i with
  | Some ws =>
      if ok (readyState ws)
      then Some (setSockets
                   (λ l, <[i := {| readyState := rs; sent := sent ws |}]> l) s)
      else None
  | None => None
  end.

Definition is_connecting (rs : ReadyState) : bool :=
  match rs with CONNECTING => true | _ => false end.
Definition is_open (rs : ReadyState) : bool :=
  match rs with OPEN => true | _ => false end.
Definition not_closed (rs : ReadyState) : bool :=
  match rs with CLOSED => false | _ => true end.

(** One transition; [None] when the event cannot happen in [s].
    - [open] is dispatched on a connecting socket, a message on an open
      one, [close] once per socket;
    - [SocketClosing] is the start of a closing handshake, which changes
      [readyState] without dispatching anything;
    - an exception thrown by a handler is reported by the browser and the
      state the handler reached stays. *)
Definition step (s : App) (e : Event) : option App :=
  match e with
  | Mount ctor_throws =>
      if statusInterval s then None else Some (mount_effect ctor_throws s)
  | Unmount =>
      if statusInterval s then Some (cleanup s) else None
  | SocketOpen i now date =>
      ws_onopen now date <$> socket_to i is_connecting OPEN s
  | SocketMessage i parsed now date =>
      (λ s', final (ws_onmessage parsed now date s'))
        <$> socket_to i is_open OPEN s
  | SocketError i =>
      match sockets s !! i with
      | Some ws => if not_closed (readyState ws)
                   then Some (ws_onerror s) else None
      | None => None
      end
  | SocketClosing i => socket_to i is_open CLOSING s
  | SocketClose i => ws_onclose <$> socket_to i not_closed CLOSED s
  | ReconnectTimer ctor_throws =>
      match reconnectTimers s with
      | O => None
      | S _ => Some (connectWebSocket ctor_throws
                       (setReconnectTimers Nat.pred s))
      end
  | InputChange text => Some (setInputText text s)
  | ToggleWebSearch =>
      Some (setWebSearchEnabled (negb (webSearchEnabled s)) s)
  | ToggleThinkingMode => Some (setThinkingMode (negb (thinkingMode s)) s)
  | SelectModel model => Some (setSelectedModel model s)
  | Send now date => Some (final (handleSendMessage now date s))
  | FileSelect fs outcome now date =>
      Some (handleFileSelect fs outcome now date s)
  end.

(** Running a trace of events. *)
Fixpoint run (s : App) (tr : list Event) : option App :=
  match tr with
  | [] => Some s
  | e :: tr' => match step s e with
                | Some s' => run s' tr'
                | None => None
                end
  end.

(** The states the component can be in. *)
Inductive reachable : App → Prop :=
| reach_initial : reachable initial
| reach_step s e s' : reachable s → step s e = Some s' → reachable s'.

(** ** Predicates on the message log *)

Definition is_streaming (m : Message) : bool := truthy (streaming m).

Definition streaming_count (l : list Message) : nat :=
  length (List.filter is_streaming l).

(** A streaming message sits at the last position. *)
Definition streaming_is_last (l : list Message) : Prop :=
  ∀ i m, l !! i = Some m → is_streaming m = true → S i = length l.

(** The streaming invariant of the data model. *)
Definition stream_inv (l : list Message) : Prop :=
  (streaming_count l ≤ 1)%nat ∧ streaming_is_last l.

(** No message is streaming. *)
Definition finalized (l : list Message) : Prop :=
  Forall (λ m, is_streaming m = false) l.

(** Only assistant messages are marked as streaming. *)
Definition only_assistants_stream (l : list Message) : Prop :=
  Forall (λ m, is_streaming m = true → type m = TAssistant) l.

Definition last_streaming (l : list Message) : bool :=
  match last l with Some m => is_streaming m | None => false end.

(** Distinct positions hold distinct ids. *)
Definition ids_unique (l : list Message) : Prop :=
  ∀ i j m n, l !! i = Some m → l !! j = Some n → i ≠ j → id m ≠ id n.

(** A message is the in-flight answer when it is an assistant message
    that is still streaming: the test of the [chunk] case. *)
Definition in_flight (l : list Message) : bool :=
  match last l with
  | Some m => bool_decide (type m = TAssistant) && is_streaming m
  | None => false
  end.

(** Every frame handed to [send] so far, over all sockets. *)
Definition outbound (s : App) : list ChatFrame :=
  concat (map sent (sockets s)).

(** ** Sample frames *)

Definition status_frame (st : jsstring) : WsData :=
  {| data_type := lit "status"; data_status := Some st;
     data_full := []; data_message := [] |}.

Definition chunk_frame (full : jsstring) : WsData :=
  {| data_type := lit "chunk"; data_status := None;
     data_full := full; data_message := [] |}.

Definition complete_frame : WsData :=
  {| data_type := lit "complete"; data_status := None;
     data_full := []; data_message := [] |}.

Definition error_frame (message : jsstring) : WsData :=
  {| data_type := lit "error"; data_status := None;
     data_full := []; data_message := message |}.

(** ** Scenarios *)

(** The component is mounted and its first socket opens at clock reading
    1000. *)
Definition session_open : list Event :=
  [Mount false; SocketOpen 0 1000 1000].

(** The first snapshot "Hi" of an answer arrives. *)
Definition first_chunk : Event :=
  SocketMessage 0 (Some (chunk_frame (lit "Hi"))) 2000 2000.

Definition trace_streaming : list Event := session_open ++ [first_chunk].

(** The message that snapshot creates. *)
Definition streaming_hi : Message :=
  {| id := 2000; type := TAssistant; content := lit "Hi";
     timestamp := 2000; streaming := Some true; webSearch := None;
     thinking := None; files := None |}.

(** An [error] frame arrives while the answer "Hi" is streaming. *)
Definition trace_error_mid_stream : list Event :=
  trace_streaming
  ++ [SocketMessage 0 (Some (error_frame (lit "boom"))) 3000 3000].

(** ... and the backend then starts another answer. *)
Definition trace_second_answer : list Event :=
  trace_error_mid_stream
  ++ [SocketMessage 0 (Some (chunk_frame (lit "Again"))) 4000 4000].

(** The backend announces that it is thinking. *)
Definition trace_thinking : list Event :=
  session_open
  ++ [SocketMessage 0 (Some (status_frame (lit "thinking"))) 2000 2000].

(** The component is unmounted while connected; the browser then
    completes the closing handshake and three seconds later the timer
    fires. *)
Definition trace_teardown : list Event :=
  session_open ++ [Unmount; SocketClose 0; ReconnectTimer false].

(** The first connection attempt fails, and the component is unmounted
    during the back-off. *)
Definition trace_unmount_during_backoff : list Event :=
  [Mount false; SocketClose 0; Unmount].

(** The user types three spaces. *)
Definition trace_blank_input : list Event :=
  session_open ++ [InputChange (lit "   ")].

(** The user types "hello" and the server starts a closing handshake
    before the user presses Enter. *)
Definition trace_closing : list Event :=
  session_open ++ [InputChange (lit "hello"); SocketClosing 0].

(** The user types "hello" on an open connection. *)
Definition trace_ready : list Event :=
  session_open ++ [InputChange (lit "hello")].

(** Two [error] frames are dispatched within the same millisecond. *)
Definition trace_two_errors : list Event :=
  session_open
  ++ [SocketMessage 0 (Some (error_frame (lit "first"))) 2000 2000;
      SocketMessage 0 (Some (error_frame (lit "second"))) 2000 2000].

(** The state a trace ends in, [initial] when it cannot run. *)
Definition after (tr : list Event) : App :=
  default initial (run initial tr).

(** A frame of a type the dispatcher does not know. *)
Definition ping_frame : WsData :=
  {| data_type := lit "ping"; data_status := None;
     data_full := []; data_message := [] |}.

Definition notes_txt : File := {| file_name := lit "notes.txt" |}.

(** Whether the outcome of an upload request is a response that reports
    success. *)
Definition reports_success (o : UploadOutcome) : bool :=
  match o with
  | Parsed result => result_success result
  | FetchRejected _ | JsonRejected _ | ParsedNull _ => false
  end.

(** Frames of the two kinds that drive a streaming answer. *)
Definition stream_frame (e : Event) : bool :=
  match e with
  | SocketMessage _ (Some d) _ _ =>
      bool_decide (data_type d = lit "chunk")
      || bool_decide (data_type d = lit "complete")
  | _ => false
  end.

(** ** Further observations on the component *)

(** The [disabled] attribute of the Send button. *)
Definition send_disabled (s : App) : bool :=
  negb (truthy_string (trim (inputText s)))
  || negb (bool_decide (connectionStatus s = Connected)).

(** Frames dispatched one after the other, each with the clock readings
    of its own dispatch. *)
Fixpoint dispatch_all (frames : list (WsData * Z * Z)) (s : App) : App :=
  match frames with
  | [] => s
  | (d, now, date) :: rest =>
      dispatch_all rest (handleWebSocketMessage d now date s)
  end.

(** The [Date.now()] reading an event hands to its handler, for the
    events whose handler may create a message. *)
Definition event_now (e : Event) : option Z :=
  match e with
  | SocketOpen _ now _ | SocketMessage _ _ now _ | Send now _
  | FileSelect _ _ now _ => Some now
  | _ => None
  end.

(** Every reading of the trace is later than [bound] and than the
    readings before it. *)
Fixpoint clock_advances (bound : Z) (tr : list Event) : Prop :=
  match tr with
  | [] => True
  | e :: tr' =>
      match event_now e with
      | Some now => (bound < now)%Z ∧ clock_advances now tr'
      | None => clock_advances bound tr'
      end
  end.

(** All ids of the log are at most [bound]. *)
Definition ids_upto (bound : Z) (l : list Message) : Prop :=
  Forall (λ m, (id m ≤ bound)%Z) l.

(** What may become of a message while it stays in the log: its identity
    and request data are kept, and once it is not streaming it is kept
    whole. *)
Definition evolves (m m' : Message) : Prop :=
  id m' = id m ∧ type m' = type m ∧ timestamp m' = timestamp m
  ∧ webSearch m' = webSearch m ∧ thinking m' = thinking m
  ∧ files m' = files m
  ∧ (is_streaming m = false → m' = m).

(** Every position of [l] is still there in [l'], holding what the
    message has evolved into. *)
Definition log_extends (l l' : list Message) : Prop :=
  ∀ i m, l !! i = Some m → ∃ m', l' !! i = Some m' ∧ evolves m m'.

Definition is_frame (e : Event) : bool :=
  match e with SocketMessage _ _ _ _ => true | _ => false end.

(** Sockets that have not dispatched [close]. *)
Definition live (s : App) : nat :=
  length (List.filter (λ ws, not_closed (readyState ws)) (sockets s)).

Definition is_mount (e : Event) : bool :=
  match e with Mount _ => true | _ => false end.

(** How often the mount effect runs in a trace. *)
Definition mounts (tr : list Event) : nat :=
  length (List.filter is_mount tr).

(** [wsRef.current] is the socket constructed last. *)
Definition wsRef_is_newest (s : App) : Prop :=
  match sockets s with
  | [] => wsRef s = None
  | _ :: _ => wsRef s = Some (pred (length (sockets s)))
  end.

(** A frame the component may send: a [chat] frame whose message is not
    blank. *)
Definition chat_frame_ok (f : ChatFrame) : Prop :=
  out_type f = lit "chat" ∧ trim (out_message f) ≠ [].

(** The texts of the user messages of a log, in order. *)
Definition user_contents (l : list Message) : list jsstring :=
  content <$> List.filter (λ m, bool_decide (type m = TUser)) l.

(** [n] connection attempts in a row that end in [close], starting with
    socket [k]; each is followed by the reconnect timer firing. *)
Fixpoint failures (k n : nat) : list Event :=
  match n with
  | O => []
  | S n' => SocketClose k :: ReconnectTimer false :: failures (S k) n'
  end.

(** ** Plugins *)

(** An element of [data.plugins] as the server sends it; only [id],
    [name] and [active] are read. *)
Record RawPlugin := {
  raw_id : jsstring;
  raw_name : jsstring;
  raw_active : bool;
}.

(** An element of the [plugins] state: [{ id, name, active, icon }].
    [plugin_icon] is [None] when the icon expression yields
    [undefined]. *)
Record Plugin := {
  plugin_id : jsstring;
  plugin_name : jsstring;
  plugin_active : bool;
  plugin_icon : option jsstring;
}.

#[export] Instance Plugin_eq_dec : EqDecision Plugin.
Proof. solve_decision. Defined.

(** The icon array literal of [fetchPlugins]. *)
Definition plugin_icons : list jsstring :=
  [ [0xD83C; 0xDF24; 0xFE0F]; [0xD83D; 0xDD0D]; [0xD83D; 0xDCC1];
    [0xD83D; 0xDCBB]; [0x2699; 0xFE0F]; [0xD83C; 0xDFB5];
    [0xD83D; 0xDCCA] ].

(** What [fetchPlugins] runs into: the request or the parsing rejects, or
    a body is parsed, whose [plugins] property is [None] when absent or
    falsy. *)
Inductive PluginsOutcome :=
| PluginsRejected
| PluginsParsed (plugins : option (list RawPlugin)).

(** [fetchPlugins()], as a function of the list it replaces. *)
Definition fetchPlugins (outcome : PluginsOutcome) (plugins : list Plugin)
  : list Plugin :=
  match outcome with
  | PluginsParsed (Some raw) =>
      imap (λ i p, {| plugin_id := raw_id p; plugin_name := raw_name p;
                      plugin_active := raw_active p;
                      plugin_icon := plugin_icons !! (i mod 7)%nat |}) raw
  | PluginsParsed None | PluginsRejected => plugins
  end.

(** The body of the [/api/plugins/toggle] request. *)
Record ToggleRequest := {
  req_plugin_id : jsstring;
  req_enabled : bool;
}.

(** [{ ...p, active: !p.active }] *)
Definition flip_active (p : Plugin) : Plugin :=
  {| plugin_id := plugin_id p; plugin_name := plugin_name p;
     plugin_active := negb (plugin_active p); plugin_icon := plugin_icon p |}.

(** [p => p.id === id] *)
Definition has_id (pid : jsstring) (p : Plugin) : bool :=
  bool_decide (plugin_id p = pid).

(** [p => p.id === id ? { ...p, active: !p.active } : p] *)
Definition flip_if (pid : jsstring) (p : Plugin) : Plugin :=
  if has_id pid p then flip_active p else p.

(** [togglePlugin(id)] on the plugin list of the render it was created
    in: the request it issues, if any, and the list it leaves.
    [resolved] tells whether the awaited request resolved; the response
    itself is not looked at. *)
Definition togglePlugin (pid : jsstring) (resolved : bool)
    (plugins : list Plugin) : option ToggleRequest * list Plugin :=
  match List.find (has_id pid) plugins with
  | None => (None, plugins)
  | Some plugin =>
      let request := {| req_plugin_id := pid;
                        req_enabled := negb (plugin_active plugin) |} in
      if resolved
      then (Some request, map (flip_if pid) plugins)
      else (Some request, plugins)
  end.

(** The numerator of the "Active Plugins" line:
    [plugins.filter(p => p.active).length]. *)
Definition active_count (plugins : list Plugin) : nat :=
  length (List.filter plugin_active plugins).

(** The message [newMessage] of [handleSendMessage]. *)
Definition user_message_of (now date : Z) (s : App) : Message :=
  {| id := now; type := TUser; content := inputText s; timestamp := date;
     streaming := None; webSearch := Some (webSearchEnabled s);
     thinking := Some (thinkingMode s); files := None |}.

(** The object [handleSendMessage] hands to [send]. *)
Definition chat_frame_of (s : App) : ChatFrame :=
  {| out_type := lit "chat"; out_message := inputText s;
     out_webSearch := webSearchEnabled s;
     out_thinkingMode := thinkingMode s; out_model := selectedModel s |}.

(** The text of the last snapshot of a run of [chunk] frames that starts
    with [d0]. *)
Definition final_snapshot (d0 : WsData) (rest : list (WsData * Z * Z))
  : jsstring :=
  match last rest with
  | Some (d, _, _) => data_full d
  | None => data_full d0
  end.

(** The system message appended when the first socket opens in
    [session_open]. *)
Definition connected_notice : Message :=
  plain_message 1000 TSystem (lit "Connected to JARVIS. Ready to assist!")
    1000.

(** Three snapshots of one answer. *)
Definition three_snapshots : list (WsData * Z * Z) :=
  [(chunk_frame (lit "H"), 2000, 2000)%Z;
   (chunk_frame (lit "Hel"), 2100, 2100)%Z;
   (chunk_frame (lit "Hello"), 2200, 2200)%Z].

Definition weather : Plugin :=
  {| plugin_id := lit "weather"; plugin_name := lit "Weather";
     plugin_active := true; plugin_icon := None |}.

Definition search : Plugin :=
  {| plugin_id := lit "search"; plugin_name := lit "Search";
     plugin_active := false; plugin_icon := None |}.

(** ** Themes and persisted settings *)

Module Settings.

(** A value of the [themes] table. *)
Record Theme := {
  name : jsstring;
  primary : jsstring;
  secondary : jsstring;
  accent : jsstring;
  background : jsstring;
  surface : jsstring;
  surfaceHover : jsstring;
  text : jsstring;
  textMuted : jsstring;
  border : jsstring;
  success : jsstring;
  warning : jsstring;
  error : jsstring;
}.

(** The [themes] object, as [Object.entries] lists it. *)
Definition themes : list (jsstring * Theme) :=
  [ (lit "psychopass",
     {| name := lit "Psycho-Pass"; primary := lit "#00D9FF";
        secondary := lit "#00FFA3"; accent := lit "#FF006E";
        background := lit "#0A0E1A"; surface := lit "#151B2E";
        surfaceHover := lit "#1E2740"; text := lit "#E0E7FF";
        textMuted := lit "#8B9DC3"; border := lit "#2A3F5F";
        success := lit "#00FF88"; warning := lit "#FFB800";
        error := lit "#FF3366" |});
    (lit "neonCyber",
     {| name := lit "Neon Cyberpunk"; primary := lit "#FF00FF";
        secondary := lit "#00FFFF"; accent := lit "#FFFF00";
        background := lit "#0D0D0D"; surface := lit "#1A1A1A";
        surfaceHover := lit "#262626"; text := lit "#FFFFFF";
        textMuted := lit "#999999"; border := lit "#333333";
        success := lit "#00FF00"; warning := lit "#FFA500";
        error := lit "#FF0000" |});
    (lit "animePastel",
     {| name := lit "Anime Pastel"; primary := lit "#FF6B9D";
        secondary := lit "#8B7FFF"; accent := lit "#FFC46B";
        background := lit "#1A1625"; surface := lit "#2D2640";
        surfaceHover := lit "#3D3555"; text := lit "#F5E6FF";
        textMuted := lit "#B8A8CC"; border := lit "#4A4160";
        success := lit "#7FFF9D"; warning := lit "#FFD67F";
        error := lit "#FF6B6B" |}) ].

Definition theme_keys : list jsstring := themes.*1.

(** The two persisted [useState] cells, and the bodies
    [{ theme, model }] of the [POST /api/settings] requests
    [saveSettings] has issued, oldest first. *)
Record Prefs := {
  currentTheme : jsstring;
  selectedModel : jsstring;
  posts : list (jsstring * jsstring);
}.

(** The state once the mount effects have run: the cells hold their
    initial values and the effect on [[currentTheme, selectedModel]] has
    called [saveSettings] once. *)
Definition mounted : Prefs :=
  {| currentTheme := lit "psychopass"; selectedModel := lit "phi3:3.8b";
     posts := [(lit "psychopass", lit "phi3:3.8b")] |}.

(** A render that commits [theme] and [model]: when neither differs from
    what the cells hold there is no render; otherwise the effect sees a
    changed dependency and calls [saveSettings]. *)
Definition commit (theme model : jsstring) (s : Prefs) : Prefs :=
  if bool_decide (theme = currentTheme s ∧ model = selectedModel s) then s
  else {| currentTheme := theme; selectedModel := model;
          posts := posts s ++ [(theme, model)] |}.

(** [if (v) set(v)]: the value a cell takes from a property of the
    loaded settings, [None] when the property is absent. *)
Definition loaded (v : option jsstring) (current : jsstring) : jsstring :=
  match v with
  | Some x => if truthy_string x then x else current
  | None => current
  end.

(** What can change the two cells: a click on card [k] of the theme
    grid, the model drop-down, and the settled [loadSettings] request.
    [batched] tells whether React commits the two setter calls of
    [loadSettings] in one render or in two. *)
Inductive Event :=
| ThemeCard (k : nat)
| ModelSelect (value : jsstring)
| SettingsLoaded (theme model : option jsstring) (batched : bool)
| SettingsRejected.

(** One transition; [None] when the event cannot happen (there is no
    card [k]) or when the component is not followed beyond it: the render
    that follows a change of theme evaluates [themes[currentTheme]] and
    reads [theme.background] from it, so that for a loaded name that is
    not a key of the table there is no palette to render with; the
    render throws, nothing is committed and no effect runs.  The
    transition is defined for the keys of the table only. *)
Definition step (s : Prefs) (e : Event) : option Prefs :=
  match e with
  | ThemeCard k =>
      match themes !! k with
      | Some (key, _) => Some (commit key (selectedModel s) s)
      | None => None
      end
  | ModelSelect value => Some (commit (currentTheme s) value s)
  | SettingsLoaded theme model batched =>
      let theme' := loaded theme (currentTheme s) in
      let model' := loaded model (selectedModel s) in
      if bool_decide (theme' ∈ theme_keys) then
        if batched then Some (commit theme' model' s)
        else Some (commit theme' model' (commit theme' (selectedModel s) s))
      else None
  | SettingsRejected => Some s
  end.

Fixpoint run (s : Prefs) (tr : list Event) : option Prefs :=
  match tr with
  | [] => Some s
  | e :: tr' => match step s e with
                | Some s' => run s' tr'
                | None => None
                end
  end.

(** The theme name of a loaded settings object, when it has a truthy
    one, is a key of [themes]. *)
Definition loads_known_theme (e : Event) : Prop :=
  match e with
  | SettingsLoaded (Some t) _ _ => t = [] ∨ t ∈ theme_keys
  | _ => True
  end.

End Settings.

(** * Properties *)

(** ** The dispatcher, case by case *)

Section Dispatch.
Variables (d : WsData) (now date : Z) (s : App).

Lemma handle_status :
  data_type d = lit "status" →
  handleWebSocketMessage d now date s =
    if bool_decide (data_status d = Some (lit "thinking"))
    then setIsThinking true s else s.
Proof. intros E. unfold handleWebSocketMessage. rewrite E. reflexivity. Qed.

Lemma handle_chunk :
  data_type d = lit "chunk" →
  handleWebSocketMessage d now date s =
    setMessages (chunk_update (data_full d) now date)
      (setCurrentMessageRef (data_full d) s).
Proof. intros E. unfold handleWebSocketMessage. rewrite E. reflexivity. Qed.

Lemma handle_complete :
  data_type d = lit "complete" →
  handleWebSocketMessage d now date s =
    setMessages complete_update
      (setCurrentMessageRef [] (setIsThinking false s)).
Proof. intros E. unfold handleWebSocketMessage. rewrite E. reflexivity. Qed.

Lemma handle_error :
  data_type d = lit "error" →
  handleWebSocketMessage d now date s =
    setMessages
      (λ prev, prev ++ [plain_message now TError
                          (lit "Error: " ++ data_message d) date])
      (setIsThinking false s).
Proof. intros E. unfold handleWebSocketMessage. rewrite E. reflexivity. Qed.

Lemma handle_other :
  data_type d ≠ lit "status" → data_type d ≠ lit "chunk" →
  data_type d ≠ lit "complete" → data_type d ≠ lit "error" →
  handleWebSocketMessage d now date s = s.
Proof.
  intros N1 N2 N3 N4. unfold handleWebSocketMessage.
  rewrite !bool_decide_eq_false_2 by assumption.
  destruct (bool_decide _); reflexivity.
Qed.
End Dispatch.

(** ** The two updaters on a log given by its last element *)

Section Updaters.
Implicit Types (l : list Message) (m : Message).

Lemma take_all_but_last {A} (l : list A) (x : A) :
  take (length (l ++ [x]) - 1) (l ++ [x]) = l.
Proof.
  rewrite length_app. simpl.
  replace (length l + 1 - 1)%nat with (length l) by lia.
  apply take_app_length.
Qed.

Lemma chunk_update_replace l m full now date :
  type m = TAssistant → is_streaming m = true →
  chunk_update full now date (l ++ [m]) = l ++ [with_content m full].
Proof.
  intros Ht Hs. unfold chunk_update. rewrite last_snoc.
  rewrite bool_decide_eq_true_2 by assumption.
  unfold is_streaming in Hs. rewrite Hs. simpl.
  now rewrite take_all_but_last.
Qed.

Lemma chunk_update_append l full now date :
  in_flight l = false →
  chunk_update full now date l =
    l ++ [ {| id := now; type := TAssistant; content := full;
              timestamp := date; streaming := Some true;
              webSearch := None; thinking := None; files := None |} ].
Proof.
  unfold in_flight, chunk_update, is_streaming.
  destruct (last l) as [m|]; [|reflexivity].
  intros ->. reflexivity.
Qed.

Lemma complete_update_finalize l m :
  is_streaming m = true →
  complete_update (l ++ [m]) = l ++ [with_streaming m false].
Proof.
  intros Hs. unfold complete_update. rewrite last_snoc.
  unfold is_streaming in Hs. rewrite Hs.
  now rewrite take_all_but_last.
Qed.

Lemma complete_update_idle l :
  last_streaming l = false → complete_update l = l.
Proof.
  unfold last_streaming, complete_update, is_streaming.
  destruct (last l) as [m|]; [|reflexivity].
  intros ->. reflexivity.
Qed.

Lemma in_flight_snoc l m :
  in_flight (l ++ [m]) = bool_decide (type m = TAssistant) && is_streaming m.
Proof. unfold in_flight. now rewrite last_snoc. Qed.

Lemma last_streaming_snoc l m :
  last_streaming (l ++ [m]) = is_streaming m.
Proof. unfold last_streaming. now rewrite last_snoc. Qed.
End Updaters.

(** ** Streaming of an answer *)

(** C2.  A [chunk] frame carrying [text] replaces the content of the last
    message when that message is an assistant message with
    [streaming = true], and otherwise appends a new assistant message
    with content [text] and [streaming = true].  Hence, on a log with no
    answer in flight, the frames status("processing"), chunk("Hi"),
    chunk("Hi there"), complete add exactly one message: an assistant
    message with content "Hi there" and [streaming = false]. *)
Theorem partial_replaces_or_appends :
  (∀ s d now date l m,
      data_type d = lit "chunk" → messages s = l ++ [m] →
      type m = TAssistant → streaming m = Some true →
      messages (handleWebSocketMessage d now date s)
      = l ++ [with_content m (data_full d)])
  ∧ (∀ s d now date,
      data_type d = lit "chunk" → in_flight (messages s) = false →
      messages (handleWebSocketMessage d now date s)
      = messages s
        ++ [ {| id := now; type := TAssistant; content := data_full d;
                timestamp := date; streaming := Some true;
                webSearch := None; thinking := None; files := None |} ])
  ∧ (∀ s d1 d2 d3 d4 n1 t1 n2 t2 n3 t3 n4 t4,
      data_type d1 = lit "status" →
      data_status d1 = Some (lit "processing") →
      data_type d2 = lit "chunk" → data_full d2 = lit "Hi" →
      data_type d3 = lit "chunk" → data_full d3 = lit "Hi there" →
      data_type d4 = lit "complete" →
      in_flight (messages s) = false →
      messages
        (handleWebSocketMessage d4 n4 t4
           (handleWebSocketMessage d3 n3 t3
              (handleWebSocketMessage d2 n2 t2
                 (handleWebSocketMessage d1 n1 t1 s))))
      = messages s
        ++ [ {| id := n2; type := TAssistant; content := lit "Hi there";
                timestamp := t2; streaming := Some false;
                webSearch := None; thinking := None; files := None |} ]).
Proof.
  split; [|split].
  - intros s d now date l m Hd Hl Ht Hs.
    rewrite handle_chunk by assumption. simpl. rewrite Hl.
    apply chunk_update_replace; [assumption|].
    unfold is_streaming. now rewrite Hs.
  - intros s d now date Hd Hf.
    rewrite handle_chunk by assumption. simpl.
    now apply chunk_update_append.
  - intros s d1 d2 d3 d4 n1 t1 n2 t2 n3 t3 n4 t4
      H1 Hst H2 Hf2 H3 Hf3 H4 Hidle.
    rewrite (handle_status d1) by assumption. rewrite Hst.
    replace (bool_decide (Some (lit "processing") = Some (lit "thinking")))
      with false by reflexivity.
    rewrite (handle_complete d4), (handle_chunk d3), (handle_chunk d2)
      by assumption.
    simpl. rewrite Hf2, Hf3.
    rewrite (chunk_update_append (messages s)) by assumption.
    rewrite chunk_update_replace by reflexivity.
    rewrite complete_update_finalize by reflexivity.
    reflexivity.
Qed.

(** ** Completion of an answer *)


(** ** Backend errors *)

(** C7.  An [error] frame appends exactly one message of type error,
    with content "Error: " followed by the frame's message and without a
    [streaming] property (so not streaming), and clears the busy flag;
    every message already in the log stays at its position unchanged, so
    a message that was streaming is still streaming with the same
    content. *)
Theorem error_appends_and_keeps_log (s : App) (d : WsData) (now date : Z) :
  data_type d = lit "error" →
  messages (handleWebSocketMessage d now date s)
  = messages s
    ++ [ {| id := now; type := TError;
            content := lit "Error: " ++ data_message d;
            timestamp := date; streaming := None; webSearch := None;
            thinking := None; files := None |} ]
  ∧ is_streaming
      {| id := now; type := TError;
         content := lit "Error: " ++ data_message d;
         timestamp := date; streaming := None; webSearch := None;
         thinking := None; files := None |}
    = false
  ∧ isThinking (handleWebSocketMessage d now date s) = false
  ∧ (∀ i m, messages s !! i = Some m →
       messages (handleWebSocketMessage d now date s) !! i = Some m)
  ∧ (∀ l m, messages s = l ++ [m] → is_streaming m = true →
       messages (handleWebSocketMessage d now date s) !! length l = Some m
       ∧ streaming m = Some true).
Proof.
  intros Hd. rewrite handle_error by assumption. simpl.
  split; [reflexivity|]. split; [reflexivity|]. split; [reflexivity|].
  split.
  - intros i m Hi. now apply lookup_app_l_Some.
  - intros l m -> Hs. split.
    + apply lookup_app_l_Some. now rewrite list_lookup_middle.
    + unfold is_streaming, truthy in Hs.
      destruct (streaming m) as [[|]|]; congruence.
Qed.

(** ** Frames the dispatcher ignores *)

(** C10.  A [status] frame whose status is not ['thinking'], and a frame
    whose type is none of ['status'], ['chunk'], ['complete'], ['error'],
    ['pong'], leave the whole client state as it was. *)
Theorem ignored_frames_change_nothing (s : App) (d : WsData) (now date : Z) :
  (data_type d = lit "status" ∧ data_status d ≠ Some (lit "thinking"))
  ∨ (data_type d ≠ lit "status" ∧ data_type d ≠ lit "chunk"
     ∧ data_type d ≠ lit "complete" ∧ data_type d ≠ lit "error"
     ∧ data_type d ≠ lit "pong") →
  handleWebSocketMessage d now date s = s.
Proof.
  intros [[Ht Hs] | (N1 & N2 & N3 & N4 & _)].
  - rewrite handle_status by assumption.
    now rewrite bool_decide_eq_false_2.
  - now apply handle_other.
Qed.

Lemma partial_replaces_or_appends_witness :
  messages (after trace_streaming)
  = messages (after session_open) ++ [streaming_hi]
  ∧ messages
      (handleWebSocketMessage (chunk_frame (lit "Hi there")) 4000 4000
         (after trace_streaming))
    = messages (after session_open)
      ++ [with_content streaming_hi (lit "Hi there")]
  ∧ in_flight (messages (after session_open)) = false
  ∧ messages
      (handleWebSocketMessage (chunk_frame (lit "Hi")) 2000 2000
         (after session_open))
    = messages (after session_open) ++ [streaming_hi]
  ∧ messages
      (handleWebSocketMessage complete_frame 5000 5000
         (handleWebSocketMessage (chunk_frame (lit "Hi there")) 4000 4000
            (handleWebSocketMessage (chunk_frame (lit "Hi")) 3000 3000
               (handleWebSocketMessage (status_frame (lit "processing"))
                  2000 2000 (after session_open)))))
    = messages (after session_open)
      ++ [ {| id := 3000; type := TAssistant; content := lit "Hi there";
              timestamp := 3000; streaming := Some false;
              webSearch := None; thinking := None; files := None |} ].
Proof.
  assert (Hl : messages (after trace_streaming)
               = messages (after session_open) ++ [streaming_hi])
    by (vm_compute; reflexivity).
  assert (Hidle : in_flight (messages (after session_open)) = false)
    by (vm_compute; reflexivity).
  destruct partial_replaces_or_appends as (Hreplace & Happend & Hscenario).
  split; [exact Hl|]. split.
  { apply (Hreplace (after trace_streaming) (chunk_frame (lit "Hi there"))
             4000%Z 4000%Z _ streaming_hi eq_refl Hl eq_refl eq_refl). }
  split; [exact Hidle|]. split.
  { apply (Happend (after session_open) (chunk_frame (lit "Hi"))
             2000%Z 2000%Z eq_refl Hidle). }
  apply Hscenario; first [exact Hidle | reflexivity].
Defined.



Lemma error_appends_and_keeps_log_witness :
  data_type (error_frame (lit "boom")) = lit "error"
  ∧ messages
      (handleWebSocketMessage (error_frame (lit "boom")) 3000 3000
         (after trace_streaming))
    = messages (after trace_streaming)
      ++ [ {| id := 3000; type := TError; content := lit "Error: boom";
              timestamp := 3000; streaming := None; webSearch := None;
              thinking := None; files := None |} ]
  ∧ messages (after trace_streaming)
    = messages (after session_open) ++ [streaming_hi]
  ∧ messages
      (handleWebSocketMessage (error_frame (lit "boom")) 3000 3000
         (after trace_streaming))
    !! length (messages (after session_open)) = Some streaming_hi.
Proof.
  assert (Hl : messages (after trace_streaming)
               = messages (after session_open) ++ [streaming_hi])
    by (vm_compute; reflexivity).
  destruct (error_appends_and_keeps_log (after trace_streaming)
              (error_frame (lit "boom")) 3000 3000 eq_refl)
    as (Happ & _ & _ & _ & Hkeep).
  split; [reflexivity|]. split; [exact Happ|]. split; [exact Hl|].
  exact (proj1 (Hkeep _ streaming_hi Hl eq_refl)).
Defined.

Lemma ignored_frames_change_nothing_witness :
  handleWebSocketMessage (status_frame (lit "processing")) 2000 2000
    (after session_open) = after session_open
  ∧ handleWebSocketMessage ping_frame 2000 2000 (after session_open)
    = after session_open.
Proof.
  split; apply ignored_frames_change_nothing.
  - left. split; [reflexivity | discriminate].
  - right. repeat split; discriminate.
Defined.

(** ** The streaming invariant *)

Section StreamInv.
Implicit Types (l : list Message) (m : Message).

Lemma streaming_count_app l1 l2 :
  streaming_count (l1 ++ l2)
  = (streaming_count l1 + streaming_count l2)%nat.
Proof.
  unfold streaming_count. now rewrite List.filter_app, length_app.
Qed.

Lemma finalized_count l : finalized l → streaming_count l = 0%nat.
Proof.
  unfold finalized, streaming_count.
  induction 1 as [|m l Hm _ IH]; simpl; [reflexivity|].
  now rewrite Hm.
Qed.

Lemma streaming_count_one m : (streaming_count [m] ≤ 1)%nat.
Proof. unfold streaming_count. simpl. destruct (is_streaming m); simpl; lia. Qed.

Lemma stream_inv_snoc l m : stream_inv (l ++ [m]) ↔ finalized l.
Proof.
  split.
  - intros [_ Hlast]. apply Forall_lookup. intros i x Hi.
    destruct (is_streaming x) eqn:Hx; [exfalso | reflexivity].
    pose proof (lookup_lt_Some _ _ _ Hi) as Hlt.
    assert (Hi' : (l ++ [m]) !! i = Some x) by now apply lookup_app_l_Some.
    specialize (Hlast i x Hi' Hx). rewrite length_app in Hlast. simpl in Hlast.
    lia.
  - intros Hfin. split.
    + rewrite streaming_count_app, (finalized_count l Hfin).
      apply streaming_count_one.
    + intros i x Hi Hx. rewrite length_app. simpl.
      destruct (decide (i < length l)%nat) as [Hlt|Hge].
      * rewrite lookup_app_l in Hi by assumption.
        pose proof (proj1 (Forall_lookup _ _) Hfin i x Hi) as Hno.
        simpl in Hno. congruence.
      * pose proof (lookup_lt_Some _ _ _ Hi) as Hb.
        rewrite length_app in Hb. simpl in Hb. lia.
Qed.

Lemma finalized_stream_inv l : finalized l → stream_inv l.
Proof.
  intros Hfin. split.
  - rewrite (finalized_count l Hfin). lia.
  - intros i x Hi Hx.
    pose proof (proj1 (Forall_lookup _ _) Hfin i x Hi) as Hno.
    simpl in Hno. congruence.
Qed.

Lemma finalized_snoc l m :
  finalized l → is_streaming m = false → finalized (l ++ [m]).
Proof.
  intros Hl Hm. apply Forall_app. split; [assumption|].
  now constructor.
Qed.

Lemma stream_inv_idle l :
  stream_inv l → last_streaming l = false → finalized l.
Proof.
  destruct l as [|m l _] using rev_ind; [constructor|].
  rewrite stream_inv_snoc, last_streaming_snoc. apply finalized_snoc.
Qed.

Lemma chunk_update_cases l full now date :
  (∃ l' m, l = l' ++ [m] ∧ type m = TAssistant ∧ is_streaming m = true
           ∧ chunk_update full now date l = l' ++ [with_content m full])
  ∨ (in_flight l = false
     ∧ ∃ fresh, chunk_update full now date l = l ++ [fresh]
                ∧ type fresh = TAssistant).
Proof.
  destruct (in_flight l) eqn:Hf.
  - left. destruct l as [|m l _] using rev_ind; [discriminate|].
    rewrite in_flight_snoc in Hf. apply andb_true_iff in Hf as [Ht Hs].
    apply bool_decide_eq_true in Ht.
    exists l, m. repeat split; try assumption.
    now apply chunk_update_replace.
  - right. split; [reflexivity|]. eexists. split.
    + now apply chunk_update_append.
    + reflexivity.
Qed.

Lemma complete_update_cases l :
  (∃ l' m, l = l' ++ [m] ∧ is_streaming m = true
           ∧ complete_update l = l' ++ [with_streaming m false])
  ∨ (last_streaming l = false ∧ complete_update l = l).
Proof.
  destruct (last_streaming l) eqn:Hf.
  - left. destruct l as [|m l _] using rev_ind; [discriminate|].
    rewrite last_streaming_snoc in Hf.
    exists l, m. repeat split; try assumption.
    now apply complete_update_finalize.
  - right. split; [reflexivity|]. now apply complete_update_idle.
Qed.

Lemma chunk_update_typed l full now date :
  only_assistants_stream l →
  only_assistants_stream (chunk_update full now date l).
Proof.
  intros Ht.
  destruct (chunk_update_cases l full now date)
    as [(l' & m & -> & Hm & _ & ->) | (_ & fresh & -> & Hfresh)].
  - apply Forall_app in Ht as [Hl' _]. apply Forall_app. split; [assumption|].
    constructor; [|constructor]. intros _. exact Hm.
  - apply Forall_app. split; [assumption|].
    constructor; [|constructor]. intros _. exact Hfresh.
Qed.

Lemma complete_update_typed l :
  only_assistants_stream l → only_assistants_stream (complete_update l).
Proof.
  intros Ht.
  destruct (complete_update_cases l) as [(l' & m & -> & _ & ->) | (_ & ->)];
    [|assumption].
  apply Forall_app in Ht as [Hl' _]. apply Forall_app. split; [assumption|].
  constructor; [|constructor]. discriminate.
Qed.

Lemma chunk_update_inv l full now date :
  only_assistants_stream l → stream_inv l →
  stream_inv (chunk_update full now date l).
Proof.
  intros Ht Hinv.
  destruct (chunk_update_cases l full now date)
    as [(l' & m & -> & _ & _ & ->) | (Hidle & fresh & -> & _)].
  - apply stream_inv_snoc. now apply stream_inv_snoc in Hinv.
  - apply stream_inv_snoc. apply stream_inv_idle; [assumption|].
    destruct l as [|m l _] using rev_ind; [reflexivity|].
    rewrite last_streaming_snoc. rewrite in_flight_snoc in Hidle.
    apply Forall_app in Ht as [_ Hm]. inversion Hm as [|? ? Hm' _]; subst.
    destruct (is_streaming m); [|reflexivity].
    rewrite bool_decide_eq_true_2 in Hidle by now apply Hm'.
    discriminate.
Qed.

Lemma complete_update_inv l :
  stream_inv l → stream_inv (complete_update l).
Proof.
  intros Hinv.
  destruct (complete_update_cases l) as [(l' & m & -> & _ & ->) | (_ & ->)];
    [|assumption].
  apply stream_inv_snoc. now apply stream_inv_snoc in Hinv.
Qed.

(** After [complete] nothing is streaming, provided the invariant held. *)
Lemma complete_update_finalized l :
  stream_inv l → finalized (complete_update l).
Proof.
  intros Hinv.
  destruct (complete_update_cases l) as [(l' & m & -> & _ & ->) | (Hidle & ->)].
  - apply finalized_snoc; [now apply stream_inv_snoc in Hinv | reflexivity].
  - now apply stream_inv_idle.
Qed.
End StreamInv.

(** ** What one transition does to the log *)

Lemma socket_to_messages i ok rs s s' :
  socket_to i ok rs s = Some s' → messages s' = messages s.
Proof.
  unfold socket_to. destruct (sockets s !! i) as [ws|]; [|discriminate].
  destruct (ok (readyState ws)); [|discriminate].
  now intros [= <-].
Qed.

Lemma handleSendMessage_messages now date s :
  messages (final (handleSendMessage now date s)) = messages s
  ∨ ∃ m, messages (final (handleSendMessage now date s)) = messages s ++ [m]
         ∧ is_streaming m = false.
Proof.
  unfold handleSendMessage.
  destruct (negb _ || negb _); [now left|]. right.
  eexists. split.
  - destruct (current_socket s) as [[i ws]|]; [|reflexivity].
    destruct (bool_decide (readyState ws = OPEN)); [|reflexivity].
    unfold ws_send. destruct (readyState ws); reflexivity.
  - reflexivity.
Qed.

Lemma handleFileSelect_messages fs outcome now date s :
  messages (handleFileSelect fs outcome now date s) = messages s
  ∨ ∃ m, messages (handleFileSelect fs outcome now date s) = messages s ++ [m]
         ∧ is_streaming m = false.
Proof.
  unfold handleFileSelect.
  destruct (bool_decide (length fs = 0%nat)); [now left|].
  destruct outcome as [msg|msg|msg|result].
  - right. eexists. split; reflexivity.
  - right. eexists. split; reflexivity.
  - right. eexists. split; reflexivity.
  - destruct (result_success result); [right | now left].
    eexists. split; reflexivity.
Qed.

(** A transition leaves the log alone, appends one message that is not
    streaming, or applies one of the two updaters; the updaters are only
    applied by [chunk] and [complete] frames. *)
Lemma step_messages s e s' :
  step s e = Some s' →
  (stream_frame e = false
   ∧ (messages s' = messages s
      ∨ ∃ m, messages s' = messages s ++ [m] ∧ is_streaming m = false))
  ∨ (∃ full now date, messages s' = chunk_update full now date (messages s))
  ∨ messages s' = complete_update (messages s).
Proof.
  destruct e as [ct| |i now date|i parsed now date|i|i|i|ct|text| | |model
                |now date|fs outcome now date]; simpl.
  - destruct (statusInterval s); [discriminate|]. intros [= <-].
    left. split; [reflexivity|]. left.
    unfold mount_effect, connectWebSocket. now destruct ct.
  - destruct (statusInterval s); [|discriminate]. intros [= <-].
    left. split; [reflexivity|]. left.
    unfold cleanup. now destruct (current_socket _) as [[? ?]|].
  - intros (s1 & Hs1 & ->)%fmap_Some.
    left. split; [reflexivity|]. right. eexists. simpl.
    rewrite (socket_to_messages _ _ _ _ _ Hs1). split; reflexivity.
  - intros (s1 & Hs1 & ->)%fmap_Some.
    apply socket_to_messages in Hs1. rewrite <- Hs1.
    destruct parsed as [d|]; simpl; [|left; split; [reflexivity | now left]].
    destruct (decide (data_type d = lit "chunk")) as [Hc|Hc].
    { right. left. rewrite handle_chunk by assumption.
      now exists (data_full d), now, date. }
    destruct (decide (data_type d = lit "complete")) as [Hd|Hd].
    { right. right. now rewrite handle_complete by assumption. }
    left. rewrite !bool_decide_eq_false_2 by assumption.
    split; [reflexivity|].
    destruct (decide (data_type d = lit "status")) as [Hst|Hst].
    { left. rewrite handle_status by assumption.
      now destruct (bool_decide _). }
    destruct (decide (data_type d = lit "error")) as [He|He].
    { right. rewrite handle_error by assumption. eexists.
      split; reflexivity. }
    left. now rewrite handle_other.
  - destruct (sockets s !! i) as [ws|]; [|discriminate].
    destruct (not_closed _); [|discriminate]. intros [= <-].
    left. split; [reflexivity | now left].
  - intros Hs1%socket_to_messages.
    left. split; [reflexivity | now left].
  - intros (s1 & Hs1%socket_to_messages & ->)%fmap_Some.
    left. split; [reflexivity | now left].
  - destruct (reconnectTimers s); [discriminate|]. intros [= <-].
    left. split; [reflexivity|]. left.
    unfold connectWebSocket. now destruct ct.
  - intros [= <-]. left. split; [reflexivity | now left].
  - intros [= <-]. left. split; [reflexivity | now left].
  - intros [= <-]. left. split; [reflexivity | now left].
  - intros [= <-]. left. split; [reflexivity | now left].
  - intros [= <-]. left. split; [reflexivity|].
    apply handleSendMessage_messages.
  - intros [= <-]. left. split; [reflexivity|].
    apply handleFileSelect_messages.
Qed.

Lemma run_app s tr1 tr2 :
  run s (tr1 ++ tr2) = match run s tr1 with
                       | Some s' => run s' tr2
                       | None => None
                       end.
Proof.
  revert s. induction tr1 as [|e tr1 IH]; intros s; simpl; [reflexivity|].
  destruct (step s e); [apply IH | reflexivity].
Qed.

Lemma run_reachable tr : ∀ s s',
  reachable s → run s tr = Some s' → reachable s'.
Proof.
  induction tr as [|e tr IH]; intros s s' Hs; simpl.
  - now intros [= <-].
  - destruct (step s e) as [s1|] eqn:He; [|discriminate].
    apply IH. now apply (reach_step s e).
Qed.

Lemma reachable_after tr s : run initial tr = Some s → reachable s.
Proof. apply run_reachable. constructor. Qed.

(** In every reachable state the streaming messages are assistant
    messages. *)
Lemma reachable_only_assistants_stream s :
  reachable s → only_assistants_stream (messages s).
Proof.
  induction 1 as [|s e s' _ IH Hstep]; [constructor|].
  destruct (step_messages _ _ _ Hstep)
    as [(_ & [-> | (m & -> & Hm)]) | [(full & now & date & ->) | ->]].
  - assumption.
  - apply Forall_app. split; [assumption|].
    constructor; [|constructor]. congruence.
  - now apply chunk_update_typed.
  - now apply complete_update_typed.
Qed.

(** The log of the initial state satisfies the invariant. *)
Lemma stream_inv_initial : stream_inv (messages initial).
Proof. apply finalized_stream_inv. constructor. Qed.

(** C1, as the code has it.  Let the log of a reachable state have at
    most one streaming message, in last position.  The log after a
    transition has the same property when the transition is the dispatch
    of a [chunk] or [complete] frame, and also, for any other transition
    (connection opened, [error] frame, submit, upload, ...), when the
    last message was not streaming at that moment. *)
Theorem stream_inv_preserved (s : App) (e : Event) (s' : App) :
  reachable s → stream_inv (messages s) → step s e = Some s' →
  stream_frame e = true ∨ last_streaming (messages s) = false →
  stream_inv (messages s').
Proof.
  intros Hreach Hinv Hstep Hside.
  pose proof (reachable_only_assistants_stream s Hreach) as Htyped.
  destruct (step_messages _ _ _ Hstep)
    as [(Hnf & [-> | (m & -> & Hm)]) | [(full & now & date & ->) | ->]].
  - assumption.
  - destruct Hside as [Hf | Hidle]; [congruence|].
    apply stream_inv_snoc. now apply stream_inv_idle.
  - now apply chunk_update_inv.
  - now apply complete_update_inv.
Qed.

Lemma stream_inv_preserved_witness :
  reachable (after session_open)
  ∧ stream_inv (messages (after session_open))
  ∧ step (after session_open) first_chunk = Some (after trace_streaming)
  ∧ stream_inv (messages (after trace_streaming)).
Proof.
  assert (Hr : reachable (after session_open))
    by (apply (reachable_after session_open); vm_compute; reflexivity).
  assert (Hi : stream_inv (messages (after session_open)))
    by (apply finalized_stream_inv; repeat constructor).
  assert (Hs : step (after session_open) first_chunk
               = Some (after trace_streaming))
    by (vm_compute; reflexivity).
  split; [exact Hr|]. split; [exact Hi|]. split; [exact Hs|].
  apply (stream_inv_preserved (after session_open) first_chunk
           (after trace_streaming) Hr Hi Hs).
  left. vm_compute. reflexivity.
Defined.

(** C1 as stated fails.  When an [error] frame arrives while the answer
    "Hi" is streaming, the error message is appended behind it: the
    streaming message is no longer last.  When the backend then starts
    another answer, two messages of the log are streaming. *)
Lemma streaming_invariant_broken_by_error :
  run initial trace_error_mid_stream = Some (after trace_error_mid_stream)
  ∧ ¬ streaming_is_last (messages (after trace_error_mid_stream))
  ∧ run initial trace_second_answer = Some (after trace_second_answer)
  ∧ streaming_count (messages (after trace_second_answer)) = 2%nat
  ∧ ¬ (∀ s, reachable s → stream_inv (messages s)).
Proof.
  assert (Hbad : ¬ streaming_is_last (messages (after trace_error_mid_stream))).
  { intros H.
    destruct (messages (after trace_error_mid_stream) !! 1%nat)
      as [m|] eqn:Hm; [|vm_compute in Hm; discriminate].
    assert (Hs : is_streaming m = true)
      by (vm_compute in Hm; injection Hm as <-; reflexivity).
    specialize (H 1%nat m Hm Hs). vm_compute in H. discriminate. }
  split; [vm_compute; reflexivity|]. split; [exact Hbad|].
  split; [vm_compute; reflexivity|]. split; [vm_compute; reflexivity|].
  intros H. apply Hbad.
  apply (H (after trace_error_mid_stream)).
  apply (reachable_after trace_error_mid_stream). vm_compute. reflexivity.
Qed.

(** ** Teardown *)

(** The cleanup function has no effect on the pending reconnect timers:
    the source keeps no handle on them and never calls [clearTimeout]. *)
Lemma cleanup_keeps_timers s : reconnectTimers (cleanup s) = reconnectTimers s.
Proof. unfold cleanup. now destruct (current_socket _) as [[? ?]|]. Qed.

(** The cleanup function does cancel the polling interval. *)
Lemma cleanup_clears_interval s : statusInterval (cleanup s) = false.
Proof. unfold cleanup. now destruct (current_socket _) as [[? ?]|]. Qed.

(** Unmounting never stops the reconnect loop: whenever the current
    socket has not yet dispatched [close], the cleanup, the [close] event
    that follows it and the timer that [onclose] schedules lead to the
    construction of a new socket, which becomes the current one. *)
Lemma teardown_then_close_reconnects s i ws :
  statusInterval s = true → current_socket s = Some (i, ws) →
  readyState ws ≠ CLOSED →
  ∃ s', run s [Unmount; SocketClose i; ReconnectTimer false] = Some s'
        ∧ length (sockets s') = S (length (sockets s))
        ∧ wsRef s' = Some (length (sockets s)).
Proof.
  intros Hmounted Hcur Hopen.
  assert (Hi : sockets s !! i = Some ws).
  { unfold current_socket in Hcur.
    destruct (wsRef s) as [j|]; [|discriminate].
    destruct (sockets s !! j) eqn:Hj; [|discriminate].
    now injection Hcur as <- <-. }
  assert (Hlt : (i < length (sockets s))%nat) by now apply lookup_lt_Some in Hi.
  assert (Hclean : cleanup s
    = setSockets (λ l, <[i := ws_close ws]> l) (setStatusInterval false s)).
  { unfold cleanup.
    change (current_socket (setStatusInterval false s)) with (current_socket s).
    now rewrite Hcur. }
  assert (Hnc : not_closed (readyState (ws_close ws)) = true).
  { unfold ws_close. destruct (readyState ws) eqn:E; simpl; rewrite ?E; try reflexivity. now elim Hopen. }
  cbn [run].
  assert (H1 : step s Unmount = Some (cleanup s))
    by (simpl; now rewrite Hmounted).
  rewrite H1, Hclean.
  set (s1 := setSockets _ (setStatusInterval false s)).
  assert (H2 : ∃ s2, step s1 (SocketClose i) = Some s2
                     ∧ length (sockets s2) = length (sockets s)
                     ∧ reconnectTimers s2 = S (reconnectTimers s)).
  { simpl. unfold socket_to. subst s1. simpl sockets.
    rewrite list_lookup_insert_eq by assumption. rewrite Hnc. simpl.
    eexists. split; [reflexivity|]. simpl.
    now rewrite !length_insert. }
  destruct H2 as (s2 & -> & Hlen & Htimers).
  simpl. rewrite Htimers.
  eexists. split; [reflexivity|]. simpl.
  rewrite length_app, Hlen. simpl. split; [lia | reflexivity].
Qed.

(** C4 at its failing inputs.  The component is unmounted while
    connected: [close()] moves the socket to [CLOSING]; when the browser
    then dispatches [close], [onclose] schedules a reconnect, and when
    that timer fires a second socket is constructed and becomes the
    current one.  And when the component is unmounted during a back-off,
    the reconnect timer scheduled before is still pending afterwards. *)
Theorem reconnect_after_teardown :
  run initial trace_teardown = Some (after trace_teardown)
  ∧ sockets (after trace_teardown)
    = [ {| readyState := CLOSED; sent := [] |}; new_WebSocket ]
  ∧ wsRef (after trace_teardown) = Some 1%nat
  ∧ statusInterval (after trace_teardown) = false
  ∧ run initial trace_unmount_during_backoff
    = Some (after trace_unmount_during_backoff)
  ∧ reconnectTimers (after trace_unmount_during_backoff) = 1%nat.
Proof. repeat (split; [vm_compute; reflexivity|]). vm_compute. reflexivity. Qed.

(** ** Submitting a message *)

(** C5, as the code has it.  When the input is empty after trimming, or
    the connection status is not ['connected'], [handleSendMessage]
    returns normally, without raising an error, and leaves the whole
    state as it was: no message is appended and no frame is sent. *)
Theorem rejected_submit_is_silent (s : App) (now date : Z) :
  trim (inputText s) = [] ∨ connectionStatus s ≠ Connected →
  handleSendMessage now date s = Returns s
  ∧ messages (final (handleSendMessage now date s)) = messages s
  ∧ outbound (final (handleSendMessage now date s)) = outbound s.
Proof.
  intros H.
  assert (E : handleSendMessage now date s = Returns s).
  { unfold handleSendMessage. destruct H as [-> | Hn]; [reflexivity|].
    rewrite (bool_decide_eq_false_2 _ Hn). simpl.
    now rewrite orb_true_r. }
  rewrite E. repeat split.
Qed.

Lemma rejected_submit_is_silent_witness :
  trim (inputText (after trace_blank_input)) = []
  ∧ handleSendMessage 2000 2000 (after trace_blank_input)
    = Returns (after trace_blank_input)
  ∧ connectionStatus (setInputText (lit "hello") initial) ≠ Connected
  ∧ handleSendMessage 2000 2000 (setInputText (lit "hello") initial)
    = Returns (setInputText (lit "hello") initial).
Proof.
  assert (H1 : trim (inputText (after trace_blank_input)) = [])
    by (vm_compute; reflexivity).
  assert (H2 : connectionStatus (setInputText (lit "hello") initial)
               ≠ Connected) by discriminate.
  split; [exact H1|]. split.
  - exact (proj1 (rejected_submit_is_silent (after trace_blank_input)
                    2000 2000 (or_introl H1))).
  - split; [exact H2|].
    exact (proj1 (rejected_submit_is_silent
                    (setInputText (lit "hello") initial)
                    2000 2000 (or_intror H2))).
Defined.

(** C5 as stated fails: the rejected call does not fail with
    [NotReadyError], it returns.  The user has typed three spaces on an
    open connection and presses Enter. *)
Lemma blank_submit_returns_normally :
  run initial trace_blank_input = Some (after trace_blank_input)
  ∧ connectionStatus (after trace_blank_input) = Connected
  ∧ trim (inputText (after trace_blank_input)) = []
  ∧ throws (handleSendMessage 2000 2000 (after trace_blank_input)) = None
  ∧ throws (handleSendMessage 2000 2000 (after trace_blank_input))
    ≠ Some (lit "NotReadyError").
Proof.
  repeat (split; [vm_compute; reflexivity|]). vm_compute. discriminate.
Qed.

Lemma sent_length_insert (l : list WebSocket) i ws ws' :
  l !! i = Some ws →
  (length (concat (map sent (<[i := ws']> l))) + length (sent ws)
   = length (concat (map sent l)) + length (sent ws'))%nat.
Proof.
  revert i. induction l as [|x l IH]; intros [|i]; simpl; try discriminate.
  - intros [= ->]. rewrite !length_app. lia.
  - intros H. specialize (IH i H). rewrite !length_app. lia.
Qed.

(** C6, as the code has it.  When the input is not empty after trimming
    and the connection status is ['connected'], [handleSendMessage]
    returns normally, appends exactly one user message, not streaming,
    that carries the input text and the two modifier flags, and clears
    the input.  When the current socket is open, exactly one frame
    [{ type: "chat", message, webSearch, thinkingMode, model }] is queued
    on it and no other socket is touched; when [wsRef] is unset or the
    current socket is not open, no frame is sent. *)
Theorem accepted_submit (s : App) (now date : Z) :
  trim (inputText s) ≠ [] → connectionStatus s = Connected →
  throws (handleSendMessage now date s) = None
  ∧ messages (final (handleSendMessage now date s))
    = messages s
      ++ [ {| id := now; type := TUser; content := inputText s;
              timestamp := date; streaming := None;
              webSearch := Some (webSearchEnabled s);
              thinking := Some (thinkingMode s); files := None |} ]
  ∧ inputText (final (handleSendMessage now date s)) = []
  ∧ (∀ i ws, current_socket s = Some (i, ws) → readyState ws = OPEN →
       sockets (final (handleSendMessage now date s))
       = <[i := {| readyState := OPEN;
                   sent := sent ws
                           ++ [ {| out_type := lit "chat";
                                   out_message := inputText s;
                                   out_webSearch := webSearchEnabled s;
                                   out_thinkingMode := thinkingMode s;
                                   out_model := selectedModel s |} ] |}]>
           (sockets s)
       ∧ length (outbound (final (handleSendMessage now date s)))
         = S (length (outbound s)))
  ∧ ((∀ i ws, current_socket s = Some (i, ws) → readyState ws ≠ OPEN) →
       sockets (final (handleSendMessage now date s)) = sockets s).
Proof.
  intros Htext Hconn. unfold handleSendMessage.
  destruct (trim (inputText s)) as [|c rest] eqn:Htrim; [congruence|].
  rewrite Hconn. simpl negb. simpl orb. cbv iota.
  destruct (current_socket s) as [[i ws]|] eqn:Hcur.
  - assert (Hi : sockets s !! i = Some ws).
    { unfold current_socket in Hcur.
      destruct (wsRef s) as [j|]; [|discriminate].
      destruct (sockets s !! j) eqn:Hj; [|discriminate].
      now injection Hcur as <- <-. }
    destruct (bool_decide (readyState ws = OPEN)) eqn:Hopen.
    + apply bool_decide_eq_true in Hopen. unfold ws_send. rewrite Hopen.
      simpl.
      split; [reflexivity|]. split; [reflexivity|]. split; [reflexivity|].
      split.
      * intros i' ws' [= <- <-] _. split; [reflexivity|].
        unfold outbound. simpl.
        pose proof (sent_length_insert (sockets s) i ws
          {| readyState := OPEN;
             sent := sent ws
                     ++ [ {| out_type := lit "chat";
                             out_message := inputText s;
                             out_webSearch := webSearchEnabled s;
                             out_thinkingMode := thinkingMode s;
                             out_model := selectedModel s |} ] |} Hi) as Hlen.
        simpl in Hlen. rewrite length_app in Hlen. simpl in Hlen. lia.
      * intros Hno. exfalso. now apply (Hno i ws).
    + apply bool_decide_eq_false in Hopen. simpl.
      split; [reflexivity|]. split; [reflexivity|]. split; [reflexivity|].
      split; [|reflexivity].
      intros i' ws' [= <- <-] Ho. contradiction.
  - simpl.
    split; [reflexivity|]. split; [reflexivity|]. split; [reflexivity|].
    split; [|reflexivity].
    intros i' ws' [=].
Qed.

Lemma accepted_submit_witness :
  trim (inputText (after trace_ready)) ≠ []
  ∧ connectionStatus (after trace_ready) = Connected
  ∧ messages (final (handleSendMessage 3000 3000 (after trace_ready)))
    = messages (after trace_ready)
      ++ [ {| id := 3000; type := TUser;
              content := inputText (after trace_ready);
              timestamp := 3000; streaming := None;
              webSearch := Some (webSearchEnabled (after trace_ready));
              thinking := Some (thinkingMode (after trace_ready));
              files := None |} ]
  ∧ length (outbound (final (handleSendMessage 3000 3000 (after trace_ready))))
    = S (length (outbound (after trace_ready))).
Proof.
  assert (H1 : trim (inputText (after trace_ready)) ≠ [])
    by (vm_compute; discriminate).
  assert (H2 : connectionStatus (after trace_ready) = Connected)
    by (vm_compute; reflexivity).
  split; [exact H1|]. split; [exact H2|].
  destruct (accepted_submit (after trace_ready) 3000 3000 H1 H2)
    as (_ & Hmsg & _ & Hopen & _).
  split; [exact Hmsg|].
  apply (Hopen 0%nat {| readyState := OPEN; sent := [] |});
    vm_compute; reflexivity.
Defined.

(** C6 as stated fails: a submit can be accepted and send nothing.  The
    user has typed "hello"; the server starts a closing handshake, so the
    socket is [CLOSING] while the status still reads ['connected'] (the
    [close] event has not been dispatched yet); the user presses Enter.
    The user message is appended, and no frame has been sent on any
    socket. *)
Lemma submit_while_closing_sends_nothing :
  run initial trace_closing = Some (after trace_closing)
  ∧ connectionStatus (after trace_closing) = Connected
  ∧ trim (inputText (after trace_closing)) = lit "hello"
  ∧ length (messages (final (handleSendMessage 3000 3000 (after trace_closing))))
    = S (length (messages (after trace_closing)))
  ∧ outbound (final (handleSendMessage 3000 3000 (after trace_closing))) = [].
Proof.
  repeat (split; [vm_compute; reflexivity|]). vm_compute. reflexivity.
Qed.

(** ** Message ids *)

(** C8 at its failing input.  Two [error] frames dispatched while the
    clock reads the same millisecond produce two messages with the same
    [id]: the log holds equal ids at positions 1 and 2. *)
Theorem ids_collide_within_a_millisecond :
  run initial trace_two_errors = Some (after trace_two_errors)
  ∧ id <$> messages (after trace_two_errors) = [1000; 2000; 2000]%Z
  ∧ ¬ ids_unique (messages (after trace_two_errors)).
Proof.
  split; [vm_compute; reflexivity|]. split; [vm_compute; reflexivity|].
  intros H.
  destruct (messages (after trace_two_errors) !! 1%nat) as [m|] eqn:Hm;
    [|vm_compute in Hm; discriminate].
  destruct (messages (after trace_two_errors) !! 2%nat) as [n|] eqn:Hn;
    [|vm_compute in Hn; discriminate].
  apply (H 1%nat 2%nat m n Hm Hn); [lia|].
  vm_compute in Hm, Hn. injection Hm as <-. injection Hn as <-. reflexivity.
Qed.

(** ** Uploads *)

(** C9, as the code has it.  A response whose body parses to a value
    other than [null] and does not report success changes nothing.  A
    response that reports success appends one user message holding the
    summary and the file references.  A request that fails, a response
    body that does not parse and a body that is [null] append one error
    message, not streaming, with content "Failed to upload files: "
    followed by the reason, to the log.  A user message is appended only
    when the response reports success. *)
Theorem upload_outcomes (s : App) (fs : list File) (now date : Z) :
  fs ≠ [] →
  (∀ r, result_success r = false →
     handleFileSelect fs (Parsed r) now date s = s)
  ∧ (∀ r, result_success r = true →
       messages (handleFileSelect fs (Parsed r) now date s)
       = messages s
         ++ [ {| id := now; type := TUser;
                 content := paperclip ++ lit " Uploaded "
                            ++ number_toString (length fs)
                            ++ lit " file(s): "
                            ++ join (lit ", ") (map file_name fs);
                 timestamp := date; streaming := None; webSearch := None;
                 thinking := None; files := result_files r |} ])
  ∧ (∀ o message,
       o = FetchRejected message ∨ o = JsonRejected message
       ∨ o = ParsedNull message →
       messages (handleFileSelect fs o now date s)
       = messages s
         ++ [ {| id := now; type := TError;
                 content := lit "Failed to upload files: " ++ message;
                 timestamp := date; streaming := None; webSearch := None;
                 thinking := None; files := None |} ])
  ∧ (∀ o m, messages (handleFileSelect fs o now date s) = messages s ++ [m] →
       type m = TUser → reports_success o = true).
Proof.
  intros Hfs. unfold handleFileSelect.
  rewrite bool_decide_eq_false_2
    by (intros E; apply Hfs; now destruct fs).
  split; [|split; [|split]].
  - intros r ->. reflexivity.
  - intros r ->. reflexivity.
  - intros o message [-> | [-> | ->]]; reflexivity.
  - intros [msg|msg|msg|r] m; simpl.
    + intros [= <-]%app_inv_head. discriminate.
    + intros [= <-]%app_inv_head. discriminate.
    + intros [= <-]%app_inv_head. discriminate.
    + destruct (result_success r); [reflexivity|].
      intros E%(f_equal length). rewrite length_app in E. simpl in E. lia.
Qed.

Lemma upload_outcomes_witness :
  [notes_txt] ≠ []
  ∧ handleFileSelect [notes_txt]
      (Parsed {| result_success := false; result_files := None |})
      2000 2000 (after session_open)
    = after session_open
  ∧ messages
      (handleFileSelect [notes_txt] (FetchRejected (lit "Failed to fetch"))
         2000 2000 (after session_open))
    = messages (after session_open)
      ++ [ {| id := 2000; type := TError;
              content := lit "Failed to upload files: "
                         ++ lit "Failed to fetch";
              timestamp := 2000; streaming := None; webSearch := None;
              thinking := None; files := None |} ]
  ∧ messages
      (handleFileSelect [notes_txt]
         (ParsedNull (lit "Cannot read properties of null"))
         2000 2000 (after session_open))
    = messages (after session_open)
      ++ [ {| id := 2000; type := TError;
              content := lit "Failed to upload files: "
                         ++ lit "Cannot read properties of null";
              timestamp := 2000; streaming := None; webSearch := None;
              thinking := None; files := None |} ].
Proof.
  assert (H : [notes_txt] ≠ []) by discriminate.
  split; [exact H|].
  destruct (upload_outcomes (after session_open) [notes_txt] 2000 2000 H)
    as (Hfail & _ & Hthrow & _).
  split; [|split].
  - apply Hfail. reflexivity.
  - apply (Hthrow _ (lit "Failed to fetch")). left. reflexivity.
  - apply (Hthrow _ (lit "Cannot read properties of null")).
    right. right. reflexivity.
Defined.

(** C9 as stated fails: a response that does not report success can
    append a message.  The server answers the upload with a body that is
    not JSON: [response.json()] rejects and the [catch] block appends an
    error message to the log.  The same happens when the body is the
    JSON value [null]: reading [result.success] throws inside the
    [try]. *)
Lemma unparsable_upload_response_is_logged :
  reports_success (JsonRejected (lit "Unexpected token <")) = false
  ∧ messages
      (handleFileSelect [notes_txt] (JsonRejected (lit "Unexpected token <"))
         2000 2000 (after session_open))
    = messages (after session_open)
      ++ [ {| id := 2000; type := TError;
              content := lit "Failed to upload files: Unexpected token <";
              timestamp := 2000; streaming := None; webSearch := None;
              thinking := None; files := None |} ]
  ∧ length
      (messages
         (handleFileSelect [notes_txt]
            (JsonRejected (lit "Unexpected token <"))
            2000 2000 (after session_open)))
    ≠ length (messages (after session_open))
  ∧ reports_success (ParsedNull (lit "Cannot read properties of null"))
    = false
  ∧ length
      (messages
         (handleFileSelect [notes_txt]
            (ParsedNull (lit "Cannot read properties of null"))
            2000 2000 (after session_open)))
    ≠ length (messages (after session_open)).
Proof.
  split; [reflexivity|]. split; [vm_compute; reflexivity|].
  split; [vm_compute; discriminate|]. split; [reflexivity|].
  vm_compute. discriminate.
Qed.

(** * Further properties of the session log *)

(** ** What a transition is made of *)

Lemma socket_to_inv i ok rs s s' :
  socket_to i ok rs s = Some s' →
  ∃ ws, sockets s !! i = Some ws ∧ ok (readyState ws) = true
        ∧ s' = setSockets
                 (λ l, <[i := {| readyState := rs; sent := sent ws |}]> l) s.
Proof.
  unfold socket_to. destruct (sockets s !! i) as [ws|]; [|discriminate].
  destruct (ok (readyState ws)) eqn:Hok; [|discriminate].
  intros [= <-]. now exists ws.
Qed.

(** The two ways [handleSendMessage] can go, with the state each ends
    in. *)
Lemma handleSendMessage_cases now date s :
  (send_disabled s = true ∧ handleSendMessage now date s = Returns s)
  ∨ (send_disabled s = false
     ∧ ((final (handleSendMessage now date s)
         = setInputText []
             (setMessages (λ prev, prev ++ [user_message_of now date s]) s)
         ∧ ∀ i ws, current_socket s = Some (i, ws) → readyState ws ≠ OPEN)
        ∨ ∃ i ws, current_socket s = Some (i, ws) ∧ readyState ws = OPEN
            ∧ final (handleSendMessage now date s)
              = setSockets
                  (λ l, <[i := {| readyState := OPEN;
                                  sent := sent ws ++ [chat_frame_of s] |}]> l)
                  (setInputText []
                     (setMessages
                        (λ prev, prev ++ [user_message_of now date s]) s)))).
Proof.
  unfold handleSendMessage, send_disabled.
  destruct (negb _ || negb _); [now left|]. right. split; [reflexivity|].
  destruct (current_socket s) as [[i ws]|] eqn:Hcur.
  - destruct (bool_decide (readyState ws = OPEN)) eqn:Hopen.
    + apply bool_decide_eq_true in Hopen. right. exists i, ws.
      split; [reflexivity|]. split; [assumption|].
      unfold ws_send. rewrite Hopen. reflexivity.
    + apply bool_decide_eq_false in Hopen. left. split; [reflexivity|].
      now intros i' ws' [= <- <-].
  - left. split; [reflexivity|]. intros i' ws' [=].
Qed.

Lemma cleanup_cases s :
  cleanup s = setStatusInterval false s
  ∨ ∃ i ws, current_socket s = Some (i, ws)
            ∧ cleanup s = setSockets (λ l, <[i := ws_close ws]> l)
                            (setStatusInterval false s).
Proof.
  unfold cleanup.
  change (current_socket (setStatusInterval false s)) with (current_socket s).
  destruct (current_socket s) as [[i ws]|]; [right | now left].
  now exists i, ws.
Qed.

Lemma current_socket_lookup s i ws :
  current_socket s = Some (i, ws) → wsRef s = Some i ∧ sockets s !! i = Some ws.
Proof.
  unfold current_socket. destruct (wsRef s) as [j|]; [|discriminate].
  destruct (sockets s !! j) eqn:Hj; [|discriminate].
  now intros [= <- <-].
Qed.

(** ** Messages stay where they are *)

Lemma evolves_refl m : evolves m m.
Proof. repeat split. Qed.

Lemma evolves_trans m1 m2 m3 : evolves m1 m2 → evolves m2 m3 → evolves m1 m3.
Proof.
  intros (Hi & Ht & Hs & Hw & Hk & Hf & Hfin) (Hi' & Ht' & Hs' & Hw' & Hk' & Hf' & Hfin').
  repeat split; try congruence.
  intros Hm. specialize (Hfin Hm). subst m2. now apply Hfin'.
Qed.

Lemma log_extends_refl l : log_extends l l.
Proof. intros i m Hi. exists m. split; [assumption | apply evolves_refl]. Qed.

Lemma log_extends_trans l1 l2 l3 :
  log_extends l1 l2 → log_extends l2 l3 → log_extends l1 l3.
Proof.
  intros H12 H23 i m Hi.
  destruct (H12 i m Hi) as (m2 & Hi2 & He2).
  destruct (H23 i m2 Hi2) as (m3 & Hi3 & He3).
  exists m3. split; [assumption|]. now apply (evolves_trans m m2 m3).
Qed.

Lemma log_extends_app l k : log_extends l (l ++ k).
Proof.
  intros i m Hi. exists m. split; [now apply lookup_app_l_Some|].
  apply evolves_refl.
Qed.

(** Replacing a streaming last message by a copy that differs in
    [content] or [streaming] only. *)
Lemma log_extends_last l m m' :
  is_streaming m = true → evolves m m' → log_extends (l ++ [m]) (l ++ [m']).
Proof.
  intros Hs He i x Hi.
  destruct (decide (i < length l)%nat) as [Hlt|Hge].
  - rewrite lookup_app_l in Hi by assumption. exists x.
    split; [now apply lookup_app_l_Some | apply evolves_refl].
  - pose proof (lookup_lt_Some _ _ _ Hi) as Hb.
    rewrite length_app in Hb. simpl in Hb.
    assert (i = length l) as -> by lia.
    rewrite list_lookup_middle in Hi by reflexivity. injection Hi as <-.
    exists m'. split; [now rewrite list_lookup_middle | assumption].
Qed.

Lemma evolves_with_content m c :
  is_streaming m = true → evolves m (with_content m c).
Proof. intros Hs. repeat split. congruence. Qed.

Lemma evolves_with_streaming m b :
  is_streaming m = true → evolves m (with_streaming m b).
Proof. intros Hs. repeat split. congruence. Qed.

Lemma log_extends_chunk_update l full now date :
  log_extends l (chunk_update full now date l).
Proof.
  destruct (chunk_update_cases l full now date)
    as [(l' & m & -> & _ & Hs & ->) | (_ & fresh & -> & _)].
  - apply log_extends_last; [assumption|]. now apply evolves_with_content.
  - apply log_extends_app.
Qed.

Lemma log_extends_complete_update l : log_extends l (complete_update l).
Proof.
  destruct (complete_update_cases l) as [(l' & m & -> & Hs & ->) | (_ & ->)].
  - apply log_extends_last; [assumption|]. now apply evolves_with_streaming.
  - apply log_extends_refl.
Qed.

Lemma step_log_extends s e s' :
  step s e = Some s' → log_extends (messages s) (messages s').
Proof.
  intros Hstep.
  destruct (step_messages _ _ _ Hstep)
    as [(_ & [-> | (m & -> & _)]) | [(full & now & date & ->) | ->]].
  - apply log_extends_refl.
  - apply log_extends_app.
  - apply log_extends_chunk_update.
  - apply log_extends_complete_update.
Qed.

Lemma run_log_extends tr : ∀ s s',
  run s tr = Some s' → log_extends (messages s) (messages s').
Proof.
  induction tr as [|e tr IH]; intros s s'; simpl.
  - intros [= <-]. apply log_extends_refl.
  - destruct (step s e) as [s1|] eqn:He; [|discriminate].
    intros Hrun. apply (log_extends_trans _ (messages s1)).
    + now apply (step_log_extends s e).
    + now apply IH.
Qed.

(** X1.  The log is append-only.  Over any sequence of transitions a
    message keeps its position, and the message found there afterwards
    has the same id, type and timestamp; in particular the log never gets
    shorter. *)
Theorem log_is_append_only (tr : list Event) (s s' : App) (i : nat)
    (m : Message) :
  run s tr = Some s' → messages s !! i = Some m →
  (∃ m', messages s' !! i = Some m'
         ∧ id m' = id m ∧ type m' = type m ∧ timestamp m' = timestamp m)
  ∧ (length (messages s) ≤ length (messages s'))%nat.
Proof.
  intros Hrun Hi. pose proof (run_log_extends tr s s' Hrun) as Hext. split.
  - destruct (Hext i m Hi) as (m' & Hi' & Hid & Hty & Hts & _).
    now exists m'.
  - destruct (messages s) as [|x l] eqn:Hl using rev_ind; [simpl; lia|].
    destruct (Hext (length l) x) as (m' & Hi' & _).
    { now rewrite list_lookup_middle. }
    apply lookup_lt_Some in Hi'. rewrite length_app. simpl. lia.
Qed.

(** X2.  A message that is not streaming is never changed again: over
    any sequence of transitions it is found unchanged at its position. *)
Theorem finalized_message_is_immutable (tr : list Event) (s s' : App)
    (i : nat) (m : Message) :
  run s tr = Some s' → messages s !! i = Some m → is_streaming m = false →
  messages s' !! i = Some m.
Proof.
  intros Hrun Hi Hfin.
  destruct (run_log_extends tr s s' Hrun i m Hi) as (m' & Hi' & He).
  destruct He as (_ & _ & _ & _ & _ & _ & Hsame).
  now rewrite (Hsame Hfin) in Hi'.
Qed.

Lemma log_is_append_only_witness :
  run (after session_open)
    [first_chunk; SocketMessage 0 (Some (error_frame (lit "boom"))) 3000 3000]
  = Some (after trace_error_mid_stream)
  ∧ messages (after session_open) !! 0%nat = Some connected_notice
  ∧ (∃ m', messages (after trace_error_mid_stream) !! 0%nat = Some m'
           ∧ id m' = id connected_notice ∧ type m' = type connected_notice
           ∧ timestamp m' = timestamp connected_notice)
  ∧ (length (messages (after session_open))
     ≤ length (messages (after trace_error_mid_stream)))%nat.
Proof.
  assert (Hrun : run (after session_open)
            [first_chunk;
             SocketMessage 0 (Some (error_frame (lit "boom"))) 3000 3000]
          = Some (after trace_error_mid_stream)) by (vm_compute; reflexivity).
  assert (Hi : messages (after session_open) !! 0%nat = Some connected_notice)
    by (vm_compute; reflexivity).
  split; [exact Hrun|]. split; [exact Hi|].
  exact (log_is_append_only _ _ _ 0%nat connected_notice Hrun Hi).
Defined.

Lemma finalized_message_is_immutable_witness :
  run (after session_open)
    [first_chunk; SocketMessage 0 (Some (error_frame (lit "boom"))) 3000 3000]
  = Some (after trace_error_mid_stream)
  ∧ messages (after session_open) !! 0%nat = Some connected_notice
  ∧ is_streaming connected_notice = false
  ∧ messages (after trace_error_mid_stream) !! 0%nat = Some connected_notice.
Proof.
  assert (Hrun : run (after session_open)
            [first_chunk;
             SocketMessage 0 (Some (error_frame (lit "boom"))) 3000 3000]
          = Some (after trace_error_mid_stream)) by (vm_compute; reflexivity).
  assert (Hi : messages (after session_open) !! 0%nat = Some connected_notice)
    by (vm_compute; reflexivity).
  split; [exact Hrun|]. split; [exact Hi|]. split; [reflexivity|].
  exact (finalized_message_is_immutable _ _ _ 0%nat connected_notice
           Hrun Hi eq_refl).
Defined.

(** ** A streamed answer ends with its last snapshot *)

(** Snapshots keep replacing the content of the message the first one
    created. *)
Lemma dispatch_all_chunks frames : ∀ s l n0 t0 c,
  Forall (λ f, data_type f.1.1 = lit "chunk") frames →
  messages s
  = l ++ [ {| id := n0; type := TAssistant; content := c; timestamp := t0;
              streaming := Some true; webSearch := None; thinking := None;
              files := None |} ] →
  messages (dispatch_all frames s)
  = l ++ [ {| id := n0; type := TAssistant;
              content := match last frames with
                         | Some (d, _, _) => data_full d
                         | None => c
                         end;
              timestamp := t0; streaming := Some true; webSearch := None;
              thinking := None; files := None |} ].
Proof.
  induction frames as [|[[d n] t] frames IH]; intros s l n0 t0 c Hall Hs.
  - exact Hs.
  - inversion Hall as [|? ? Hd Hrest]; subst. simpl in Hd.
    cbn [dispatch_all].
    rewrite (IH (handleWebSocketMessage d n t s) l n0 t0 (data_full d) Hrest).
    + rewrite last_cons.
      destruct (last frames) as [[[d' n'] t']|]; reflexivity.
    + rewrite handle_chunk by assumption. simpl. rewrite Hs.
      now rewrite chunk_update_replace.
Qed.

(** X3.  When no answer is in flight, any non-empty run of [chunk]
    frames followed by a [complete] frame adds exactly one message to the
    log: an assistant message, not streaming, whose content is the text
    of the last snapshot and whose id and timestamp are the clock
    readings of the first; the busy flag is cleared. *)
Theorem snapshots_then_complete (s : App) (d0 : WsData) (n0 t0 : Z)
    (rest : list (WsData * Z * Z)) (dc : WsData) (nc tc : Z) :
  in_flight (messages s) = false →
  Forall (λ f, data_type f.1.1 = lit "chunk") ((d0, n0, t0) :: rest) →
  data_type dc = lit "complete" →
  messages
    (handleWebSocketMessage dc nc tc (dispatch_all ((d0, n0, t0) :: rest) s))
  = messages s
    ++ [ {| id := n0; type := TAssistant;
            content := final_snapshot d0 rest; timestamp := t0;
            streaming := Some false; webSearch := None; thinking := None;
            files := None |} ]
  ∧ isThinking
      (handleWebSocketMessage dc nc tc
         (dispatch_all ((d0, n0, t0) :: rest) s)) = false.
Proof.
  intros Hidle Hall Hc.
  inversion Hall as [|? ? Hd0 Hrest]; subst. simpl in Hd0.
  rewrite handle_complete by assumption. simpl. split; [|reflexivity].
  rewrite (dispatch_all_chunks rest (handleWebSocketMessage d0 n0 t0 s)
             (messages s) n0 t0 (data_full d0) Hrest).
  - rewrite complete_update_finalize by reflexivity.
    unfold final_snapshot.
    destruct (last rest) as [[[d n] t]|]; reflexivity.
  - rewrite handle_chunk by assumption. simpl.
    now apply chunk_update_append.
Qed.

Lemma snapshots_then_complete_witness :
  in_flight (messages (after session_open)) = false
  ∧ messages
      (handleWebSocketMessage complete_frame 2300 2300
         (dispatch_all three_snapshots (after session_open)))
    = messages (after session_open)
      ++ [ {| id := 2000; type := TAssistant; content := lit "Hello";
              timestamp := 2000; streaming := Some false;
              webSearch := None; thinking := None; files := None |} ].
Proof.
  assert (Hidle : in_flight (messages (after session_open)) = false)
    by (vm_compute; reflexivity).
  split; [exact Hidle|].
  refine (proj1 (snapshots_then_complete (after session_open)
                   (chunk_frame (lit "H")) 2000 2000
                   [(chunk_frame (lit "Hel"), 2100, 2100)%Z;
                    (chunk_frame (lit "Hello"), 2200, 2200)%Z]
                   complete_frame 2300 2300 Hidle _ eq_refl)).
  repeat constructor.
Defined.

(** ** One transition, event by event *)

Lemma step_inv s e s' :
  step s e = Some s' →
  match e with
  | Mount ct => statusInterval s = false ∧ s' = mount_effect ct s
  | Unmount => statusInterval s = true ∧ s' = cleanup s
  | SocketOpen i now date =>
      ∃ ws, sockets s !! i = Some ws ∧ readyState ws = CONNECTING
        ∧ s' = ws_onopen now date
                 (setSockets
                    (λ l, <[i := {| readyState := OPEN; sent := sent ws |}]> l)
                    s)
  | SocketMessage i parsed now date =>
      ∃ ws, sockets s !! i = Some ws ∧ readyState ws = OPEN
        ∧ s' = final (ws_onmessage parsed now date
                        (setSockets
                           (λ l, <[i := {| readyState := OPEN;
                                           sent := sent ws |}]> l) s))
  | SocketError i =>
      ∃ ws, sockets s !! i = Some ws ∧ readyState ws ≠ CLOSED
        ∧ s' = ws_onerror s
  | SocketClosing i =>
      ∃ ws, sockets s !! i = Some ws ∧ readyState ws = OPEN
        ∧ s' = setSockets
                 (λ l, <[i := {| readyState := CLOSING; sent := sent ws |}]> l)
                 s
  | SocketClose i =>
      ∃ ws, sockets s !! i = Some ws ∧ readyState ws ≠ CLOSED
        ∧ s' = ws_onclose
                 (setSockets
                    (λ l, <[i := {| readyState := CLOSED;
                                    sent := sent ws |}]> l) s)
  | ReconnectTimer ct =>
      (0 < reconnectTimers s)%nat
      ∧ s' = connectWebSocket ct (setReconnectTimers Nat.pred s)
  | InputChange text => s' = setInputText text s
  | ToggleWebSearch => s' = setWebSearchEnabled (negb (webSearchEnabled s)) s
  | ToggleThinkingMode => s' = setThinkingMode (negb (thinkingMode s)) s
  | SelectModel model => s' = setSelectedModel model s
  | Send now date => s' = final (handleSendMessage now date s)
  | FileSelect fs outcome now date =>
      s' = handleFileSelect fs outcome now date s
  end.
Proof.
  destruct e as [ct| |i now date|i parsed now date|i|i|i|ct|text| | |model
                |now date|fs outcome now date]; simpl.
  - destruct (statusInterval s); [discriminate|]. now intros [= <-].
  - destruct (statusInterval s); [|discriminate]. now intros [= <-].
  - intros (s1 & (ws & Hi & Hok & ->)%socket_to_inv & ->)%fmap_Some.
    exists ws. repeat split; [assumption|]. now destruct (readyState ws).
  - intros (s1 & (ws & Hi & Hok & ->)%socket_to_inv & ->)%fmap_Some.
    exists ws. repeat split; [assumption|]. now destruct (readyState ws).
  - destruct (sockets s !! i) as [ws|]; [|discriminate].
    destruct (not_closed (readyState ws)) eqn:Hok; [|discriminate].
    intros [= <-]. exists ws. repeat split.
    intros E. rewrite E in Hok. discriminate.
  - intros (ws & Hi & Hok & ->)%socket_to_inv.
    exists ws. repeat split; [assumption|]. now destruct (readyState ws).
  - intros (s1 & (ws & Hi & Hok & ->)%socket_to_inv & ->)%fmap_Some.
    exists ws. repeat split; [assumption|].
    intros E. rewrite E in Hok. discriminate.
  - destruct (reconnectTimers s); [discriminate|]. intros [= <-].
    split; [lia | reflexivity].
  - now intros [= <-].
  - now intros [= <-].
  - now intros [= <-].
  - now intros [= <-].
  - now intros [= <-].
  - now intros [= <-].
Qed.

(** ** The busy flag *)

Lemma handleSendMessage_isThinking now date s :
  isThinking (final (handleSendMessage now date s)) = isThinking s.
Proof.
  destruct (handleSendMessage_cases now date s)
    as [(_ & ->) | (_ & [(-> & _) | (i & ws & _ & _ & ->)])]; reflexivity.
Qed.

Lemma handleFileSelect_isThinking fs outcome now date s :
  isThinking (handleFileSelect fs outcome now date s) = isThinking s.
Proof.
  unfold handleFileSelect. destruct (bool_decide _); [reflexivity|].
  destruct outcome as [?|?|?|r]; try reflexivity.
  now destruct (result_success r).
Qed.

Lemma step_isThinking s e s' :
  step s e = Some s' → is_frame e = false → isThinking s' = isThinking s.
Proof.
  intros Hstep%step_inv Hnf.
  destruct e as [ct| |i now date|i parsed now date|i|i|i|ct|text| | |model
                |now date|fs outcome now date]; try discriminate.
  - destruct Hstep as (_ & ->). unfold mount_effect, connectWebSocket.
    now destruct ct.
  - destruct Hstep as (_ & ->).
    destruct (cleanup_cases s) as [-> | (i & ws & _ & ->)]; reflexivity.
  - now destruct Hstep as (ws & _ & _ & ->).
  - now destruct Hstep as (ws & _ & _ & ->).
  - now destruct Hstep as (ws & _ & _ & ->).
  - now destruct Hstep as (ws & _ & _ & ->).
  - destruct Hstep as (_ & ->). unfold connectWebSocket. now destruct ct.
  - now subst.
  - now subst.
  - now subst.
  - now subst.
  - subst. apply handleSendMessage_isThinking.
  - subst. apply handleFileSelect_isThinking.
Qed.

(** X5.  Only inbound frames change the busy flag.  Over any sequence of
    transitions that dispatches no frame (sockets opening, failing and
    closing, reconnects, mount and unmount, typing, sending, uploads) the
    flag keeps its value; in particular it stays set when the connection
    is lost while the backend is thinking. *)
Theorem busy_flag_changes_only_on_frames (tr : list Event) :
  ∀ s s', run s tr = Some s' → Forall (λ e, is_frame e = false) tr →
          isThinking s' = isThinking s.
Proof.
  induction tr as [|e tr IH]; intros s s'; simpl.
  - now intros [= <-].
  - destruct (step s e) as [s1|] eqn:He; [|discriminate].
    intros Hrun Hall. inversion Hall as [|? ? Hnf Hrest]; subst.
    rewrite (IH s1 s' Hrun Hrest). now apply (step_isThinking s e).
Qed.

Lemma busy_flag_changes_only_on_frames_witness :
  run (after trace_thinking) [SocketClose 0; ReconnectTimer false;
                              SocketOpen 1 9000 9000]
  = Some (after (trace_thinking ++ [SocketClose 0; ReconnectTimer false;
                                    SocketOpen 1 9000 9000]))
  ∧ isThinking (after (trace_thinking ++ [SocketClose 0; ReconnectTimer false;
                                          SocketOpen 1 9000 9000]))
    = isThinking (after trace_thinking)
  ∧ isThinking (after trace_thinking) = true.
Proof.
  assert (Hrun : run (after trace_thinking)
                   [SocketClose 0; ReconnectTimer false; SocketOpen 1 9000 9000]
                 = Some (after (trace_thinking
                                ++ [SocketClose 0; ReconnectTimer false;
                                    SocketOpen 1 9000 9000])))
    by (vm_compute; reflexivity).
  split; [exact Hrun|]. split; [|vm_compute; reflexivity].
  apply (busy_flag_changes_only_on_frames _ _ _ Hrun).
  repeat constructor.
Defined.

(** ** Ids under an advancing clock *)

Lemma ids_unique_NoDup l : ids_unique l ↔ NoDup (id <$> l).
Proof.
  rewrite NoDup_alt. split.
  - intros Hu i j x Hi Hj. rewrite list_lookup_fmap in Hi, Hj.
    apply fmap_Some in Hi as (m & Hi & ->).
    apply fmap_Some in Hj as (n & Hj & Hn).
    destruct (decide (i = j)) as [|Hne]; [assumption|].
    now destruct (Hu i j m n Hi Hj Hne).
  - intros Hn i j m n Hi Hj Hne Heq. apply Hne.
    apply (Hn i j (id m)); rewrite list_lookup_fmap.
    + now rewrite Hi.
    + rewrite Hj. simpl. now rewrite Heq.
Qed.

Lemma chunk_update_ids l full now date :
  id <$> chunk_update full now date l = id <$> l
  ∨ id <$> chunk_update full now date l = (id <$> l) ++ [now].
Proof.
  destruct (chunk_update_cases l full now date)
    as [(l' & m & -> & _ & _ & ->) | (Hidle & _)].
  - left. now rewrite !fmap_app.
  - right. rewrite chunk_update_append by assumption. now rewrite fmap_app.
Qed.

Lemma complete_update_ids l : id <$> complete_update l = id <$> l.
Proof.
  destruct (complete_update_cases l) as [(l' & m & -> & _ & ->) | (_ & ->)];
    [|reflexivity].
  now rewrite !fmap_app.
Qed.

Lemma handleWebSocketMessage_ids d now date s :
  id <$> messages (handleWebSocketMessage d now date s) = id <$> messages s
  ∨ id <$> messages (handleWebSocketMessage d now date s)
    = (id <$> messages s) ++ [now].
Proof.
  destruct (decide (data_type d = lit "chunk")) as [Hc|Hc].
  { rewrite handle_chunk by assumption. apply chunk_update_ids. }
  destruct (decide (data_type d = lit "complete")) as [Hd|Hd].
  { left. rewrite handle_complete by assumption. apply complete_update_ids. }
  destruct (decide (data_type d = lit "status")) as [Hst|Hst].
  { left. rewrite handle_status by assumption. now destruct (bool_decide _). }
  destruct (decide (data_type d = lit "error")) as [He|He].
  { right. rewrite handle_error by assumption. simpl. now rewrite fmap_app. }
  left. now rewrite handle_other.
Qed.

(** A transition leaves the ids of the log alone or appends the
    [Date.now()] reading of its event. *)
Lemma step_ids s e s' :
  step s e = Some s' →
  id <$> messages s' = id <$> messages s
  ∨ ∃ now, event_now e = Some now
           ∧ id <$> messages s' = (id <$> messages s) ++ [now].
Proof.
  intros Hstep%step_inv.
  destruct e as [ct| |i now date|i parsed now date|i|i|i|ct|text| | |model
                |now date|fs outcome now date].
  - destruct Hstep as (_ & ->). left. unfold mount_effect, connectWebSocket.
    now destruct ct.
  - destruct Hstep as (_ & ->). left.
    destruct (cleanup_cases s) as [-> | (i & ws & _ & ->)]; reflexivity.
  - destruct Hstep as (ws & _ & _ & ->). right. exists now.
    split; [reflexivity|]. simpl. now rewrite fmap_app.
  - destruct Hstep as (ws & _ & _ & ->).
    destruct parsed as [d|]; simpl; [|now left].
    destruct (handleWebSocketMessage_ids d now date
                (setSockets
                   (λ l, <[i := {| readyState := OPEN; sent := sent ws |}]> l)
                   s)) as [H | H].
    + now left.
    + right. now exists now.
  - destruct Hstep as (ws & _ & _ & ->). now left.
  - destruct Hstep as (ws & _ & _ & ->). now left.
  - destruct Hstep as (ws & _ & _ & ->). now left.
  - destruct Hstep as (_ & ->). left. unfold connectWebSocket. now destruct ct.
  - subst. now left.
  - subst. now left.
  - subst. now left.
  - subst. now left.
  - subst.
    destruct (handleSendMessage_cases now date s)
      as [(_ & ->) | (_ & [(-> & _) | (i & ws & _ & _ & ->)])].
    + now left.
    + right. exists now. split; [reflexivity|]. simpl. now rewrite fmap_app.
    + right. exists now. split; [reflexivity|]. simpl. now rewrite fmap_app.
  - subst. unfold handleFileSelect.
    destruct (bool_decide _); [now left|].
    destruct outcome as [msg|msg|msg|r].
    + right. exists now. split; [reflexivity|]. simpl. now rewrite fmap_app.
    + right. exists now. split; [reflexivity|]. simpl. now rewrite fmap_app.
    + right. exists now. split; [reflexivity|]. simpl. now rewrite fmap_app.
    + destruct (result_success r); [|now left].
      right. exists now. split; [reflexivity|]. simpl. now rewrite fmap_app.
Qed.

Lemma NoDup_snoc_above (l : list Z) (bound now : Z) :
  NoDup l → Forall (λ x, (x ≤ bound)%Z) l → (bound < now)%Z →
  NoDup (l ++ [now]) ∧ Forall (λ x, (x ≤ now)%Z) (l ++ [now]).
Proof.
  intros Hn Hb Hlt. split.
  - apply NoDup_app. split; [assumption|]. split; [|apply NoDup_singleton].
    intros x Hx ->%list_elem_of_singleton.
    pose proof (proj1 (Forall_forall _ _) Hb now Hx) as Hle. simpl in Hle. lia.
  - apply Forall_app. split.
    + eapply Forall_impl; [exact Hb|]. simpl. intros; lia.
    + constructor; [lia | constructor].
Qed.

Lemma run_ids tr : ∀ s s' bound,
  run s tr = Some s' → NoDup (id <$> messages s) →
  Forall (λ x, (x ≤ bound)%Z) (id <$> messages s) →
  clock_advances bound tr → NoDup (id <$> messages s').
Proof.
  induction tr as [|e tr IH]; intros s s' bound; simpl.
  - now intros [= <-].
  - destruct (step s e) as [s1|] eqn:He; [|discriminate].
    intros Hrun Hn Hb Hclock.
    destruct (step_ids s e s1 He) as [Hsame | (now & Hnow & Happ)].
    + destruct (event_now e) as [now|].
      * destruct Hclock as [Hlt Hclock].
        apply (IH s1 s' now Hrun); rewrite ?Hsame; try assumption.
        eapply Forall_impl; [exact Hb|]. simpl. intros; lia.
      * apply (IH s1 s' bound Hrun); rewrite ?Hsame; assumption.
    + rewrite Hnow in Hclock. destruct Hclock as [Hlt Hclock].
      destruct (NoDup_snoc_above _ bound now Hn Hb Hlt) as [Hn' Hb'].
      apply (IH s1 s' now Hrun); rewrite ?Happ; assumption.
Qed.

(** X4.  Message ids are unique as long as the clock advances: when the
    ids of the log are distinct and none is later than [bound], and every
    [Date.now()] reading taken along a sequence of transitions is later
    than [bound] and than the readings before it, the ids of the log are
    distinct afterwards. *)
Theorem ids_unique_while_clock_advances (tr : list Event) (s s' : App)
    (bound : Z) :
  run s tr = Some s' → ids_unique (messages s) →
  ids_upto bound (messages s) → clock_advances bound tr →
  ids_unique (messages s').
Proof.
  intros Hrun Hu Hb Hclock. apply ids_unique_NoDup.
  apply (run_ids tr s s' bound Hrun).
  - now apply ids_unique_NoDup.
  - unfold ids_upto in Hb. now rewrite Forall_fmap.
  - assumption.
Qed.

Lemma ids_unique_while_clock_advances_witness :
  run initial trace_second_answer = Some (after trace_second_answer)
  ∧ clock_advances 0 trace_second_answer
  ∧ ids_unique (messages (after trace_second_answer)).
Proof.
  assert (Hrun : run initial trace_second_answer
                 = Some (after trace_second_answer))
    by (vm_compute; reflexivity).
  assert (Hclock : clock_advances 0 trace_second_answer)
    by (simpl; repeat split; lia).
  split; [exact Hrun|]. split; [exact Hclock|].
  apply (ids_unique_while_clock_advances trace_second_answer initial _ 0%Z
           Hrun).
  - intros i j m n Hi. discriminate Hi.
  - constructor.
  - exact Hclock.
Defined.

(** ** The submit guard *)

Lemma trimStart_nil_iff s :
  trimStart s = [] ↔ Forall (λ c, isWhiteSpace c = true) s.
Proof.
  induction s as [|c s IH]; simpl.
  - split; [constructor | reflexivity].
  - destruct (isWhiteSpace c) eqn:Hc.
    + rewrite IH. split.
      * intros H. now constructor.
      * intros H. now inversion H.
    + split; [discriminate|]. intros H. inversion H. congruence.
Qed.

Lemma trimStart_suffix s : ∃ pre, s = pre ++ trimStart s
                                  ∧ Forall (λ c, isWhiteSpace c = true) pre.
Proof.
  induction s as [|c s (pre & E & Hpre)]; simpl.
  - now exists [].
  - destruct (isWhiteSpace c) eqn:Hc.
    + exists (c :: pre). split; [simpl; now f_equal | now constructor].
    + now exists [].
Qed.

Lemma trim_nil_iff s : trim s = [] ↔ Forall (λ c, isWhiteSpace c = true) s.
Proof.
  unfold trim, trimEnd. split.
  - intros H.
    assert (H1 : trimStart (reverse (trimStart s)) = []).
    { apply (f_equal reverse) in H. rewrite reverse_involutive in H.
      exact H. }
    apply trimStart_nil_iff in H1. rewrite Forall_reverse in H1.
    destruct (trimStart_suffix s) as (pre & E & Hpre).
    rewrite E. apply Forall_app. now split.
  - intros H. apply trimStart_nil_iff in H. rewrite H. reflexivity.
Qed.

Lemma send_disabled_iff s :
  send_disabled s = true
  ↔ connectionStatus s ≠ Connected
    ∨ Forall (λ c, isWhiteSpace c = true) (inputText s).
Proof.
  unfold send_disabled. rewrite orb_true_iff, <- trim_nil_iff. split.
  - intros [H | H].
    + right. now destruct (trim (inputText s)).
    + left. apply negb_true_iff in H. now apply bool_decide_eq_false in H.
  - intros [H | H].
    + right. apply negb_true_iff. now apply bool_decide_eq_false.
    + left. now rewrite H.
Qed.

Lemma handleSendMessage_noop_iff now date s :
  final (handleSendMessage now date s) = s ↔ send_disabled s = true.
Proof.
  destruct (handleSendMessage_cases now date s)
    as [(Hd & ->) | (Hd & Hacc)].
  - simpl. now split.
  - split; [|congruence]. intros E. exfalso.
    assert (Hlen : length (messages (final (handleSendMessage now date s)))
                   = S (length (messages s))).
    { destruct Hacc as [(-> & _) | (i & ws & _ & _ & ->)]; simpl;
        rewrite length_app; simpl; lia. }
    rewrite E in Hlen. lia.
Qed.

(** X6.  [handleSendMessage] does nothing exactly when the Send button is
    rendered disabled, and that is exactly when the connection status is
    not ['connected'] or every code unit of the input is white space (the
    empty input included). *)
Theorem submit_is_noop_iff_blank_or_offline (s : App) (now date : Z) :
  (final (handleSendMessage now date s) = s ↔ send_disabled s = true)
  ∧ (final (handleSendMessage now date s) = s
     ↔ connectionStatus s ≠ Connected
       ∨ Forall (λ c, isWhiteSpace c = true) (inputText s)).
Proof.
  split; [apply handleSendMessage_noop_iff|].
  rewrite handleSendMessage_noop_iff. apply send_disabled_iff.
Qed.

(** X7.  Pressing Enter twice sends once: a second call of
    [handleSendMessage] right after the first changes nothing, whatever
    the first did, because an accepted submit clears the input. *)
Theorem second_submit_changes_nothing (s : App) (n1 d1 n2 d2 : Z) :
  final (handleSendMessage n2 d2 (final (handleSendMessage n1 d1 s)))
  = final (handleSendMessage n1 d1 s).
Proof.
  apply handleSendMessage_noop_iff.
  destruct (handleSendMessage_cases n1 d1 s)
    as [(Hd & ->) | (_ & [(-> & _) | (i & ws & _ & _ & ->)])].
  - exact Hd.
  - reflexivity.
  - reflexivity.
Qed.

(** * Sockets and outbound frames *)

Lemma sent_insert_same (l : list WebSocket) i ws ws' :
  l !! i = Some ws → sent ws' = sent ws →
  sent <$> <[i := ws']> l = sent <$> l.
Proof.
  intros Hi Hs. rewrite list_fmap_insert. apply list_insert_id.
  rewrite list_lookup_fmap, Hi. simpl. now rewrite Hs.
Qed.

(** What a transition does to the sockets: it keeps what each socket has
    sent and which socket is current; or it constructs a socket, which
    becomes current; or it is an accepted submit that queues one frame on
    the current socket. *)
Lemma step_sockets s e s' :
  step s e = Some s' →
  (wsRef s' = wsRef s ∧ sent <$> sockets s' = sent <$> sockets s)
  ∨ (sockets s' = sockets s ++ [new_WebSocket]
     ∧ wsRef s' = Some (length (sockets s)))
  ∨ (∃ now date i ws,
        e = Send now date ∧ send_disabled s = false
        ∧ wsRef s = Some i ∧ sockets s !! i = Some ws
        ∧ wsRef s' = wsRef s
        ∧ sockets s'
          = <[i := {| readyState := OPEN;
                      sent := sent ws ++ [chat_frame_of s] |}]> (sockets s)
        ∧ messages s' = messages s ++ [user_message_of now date s]).
Proof.
  intros Hstep%step_inv.
  destruct e as [ct| |i now date|i parsed now date|i|i|i|ct|text| | |model
                |now date|fs outcome now date].
  - destruct Hstep as (_ & ->). unfold mount_effect, connectWebSocket.
    destruct ct; [now left | right; left; now split].
  - destruct Hstep as (_ & ->). left.
    destruct (cleanup_cases s) as [-> | (i & ws & Hcur & ->)];
      [now split|].
    apply current_socket_lookup in Hcur as [_ Hi]. split; [reflexivity|].
    simpl. apply (sent_insert_same _ _ ws); [assumption|].
    unfold ws_close. now destruct (readyState ws).
  - destruct Hstep as (ws & Hi & _ & ->). left. split; [reflexivity|].
    simpl. now apply (sent_insert_same _ _ ws).
  - destruct Hstep as (ws & Hi & _ & ->). left.
    assert (Hkeep : ∀ d s0, wsRef (handleWebSocketMessage d now date s0)
                            = wsRef s0
                            ∧ sockets (handleWebSocketMessage d now date s0)
                              = sockets s0).
    { intros d s0. unfold handleWebSocketMessage.
      repeat (destruct (bool_decide _)); now split. }
    destruct parsed as [d|]; simpl.
    + destruct (Hkeep d (setSockets
                  (λ l, <[i := {| readyState := OPEN; sent := sent ws |}]> l)
                  s)) as [-> ->].
      split; [reflexivity|]. simpl. now apply (sent_insert_same _ _ ws).
    + split; [reflexivity|]. now apply (sent_insert_same _ _ ws).
  - destruct Hstep as (ws & _ & _ & ->). left. now split.
  - destruct Hstep as (ws & Hi & _ & ->). left. split; [reflexivity|].
    simpl. now apply (sent_insert_same _ _ ws).
  - destruct Hstep as (ws & Hi & _ & ->). left. split; [reflexivity|].
    simpl. now apply (sent_insert_same _ _ ws).
  - destruct Hstep as (_ & ->). unfold connectWebSocket.
    destruct ct; [now left | right; left; now split].
  - subst. left. now split.
  - subst. left. now split.
  - subst. left. now split.
  - subst. left. now split.
  - subst.
    destruct (handleSendMessage_cases now date s)
      as [(_ & ->) | (Hd & [(-> & _) | (i & ws & Hcur & _ & ->)])].
    + left. now split.
    + left. now split.
    + right. right. apply current_socket_lookup in Hcur as [Hr Hi].
      exists now, date, i, ws. repeat split; assumption.
  - subst. left. unfold handleFileSelect.
    destruct (bool_decide _); [now split|].
    destruct outcome as [?|?|?|r]; try now split.
    destruct (result_success r); now split.
Qed.

Lemma wsRef_is_newest_alt s :
  wsRef_is_newest s
  ↔ (sockets s = [] ∧ wsRef s = None)
    ∨ (sockets s ≠ [] ∧ wsRef s = Some (pred (length (sockets s)))).
Proof.
  unfold wsRef_is_newest. destruct (sockets s) as [|ws l]; split.
  - intros H. now left.
  - now intros [[_ H] | [H _]].
  - intros H. right. now split.
  - now intros [[H _] | [_ H]].
Qed.

(** [wsRef.current] is unset until the first socket is constructed and
    from then on refers to the socket constructed last. *)
Lemma reachable_wsRef_newest s : reachable s → wsRef_is_newest s.
Proof.
  induction 1 as [|s e s' _ IH Hstep]; [reflexivity|].
  apply wsRef_is_newest_alt. apply wsRef_is_newest_alt in IH.
  destruct (step_sockets s e s' Hstep)
    as [(Hr & Hs) | [(Hs & Hr) | (now & date & i & ws & _ & _ & _ & _
                                  & Hr & Hs & _)]].
  - assert (Hlen : length (sockets s') = length (sockets s)).
    { rewrite <- (length_fmap sent (sockets s')), Hs. apply length_fmap. }
    rewrite Hr, Hlen.
    destruct IH as [[Hnil Hnone] | [Hne Hsome]].
    + left. split; [|assumption]. apply length_zero_iff_nil.
      rewrite Hlen, Hnil. reflexivity.
    + right. split; [|assumption]. intros E. apply Hne.
      apply length_zero_iff_nil. rewrite <- Hlen, E. reflexivity.
  - right. rewrite Hs, Hr, length_app. simpl. split.
    + now destruct (sockets s).
    + f_equal. lia.
  - rewrite Hr, Hs, length_insert.
    destruct IH as [[Hnil Hnone] | [Hne Hsome]].
    + left. split; [|assumption]. now rewrite Hnil.
    + right. split; [|assumption]. intros E. apply Hne.
      apply (f_equal length) in E. rewrite length_insert in E.
      now apply length_zero_iff_nil.
Qed.

(** X8.  In every reachable state [wsRef.current] refers to the socket
    constructed last: it is unset while no socket has been constructed,
    and otherwise resolves to the last element of the sockets, so that a
    frame is never sent on an older socket. *)
Theorem wsRef_designates_newest_socket (s : App) :
  reachable s →
  (sockets s = [] → current_socket s = None)
  ∧ (sockets s ≠ [] →
       ∃ ws, last (sockets s) = Some ws
             ∧ current_socket s = Some (pred (length (sockets s)), ws)).
Proof.
  intros Hr%reachable_wsRef_newest%wsRef_is_newest_alt.
  unfold current_socket. split.
  - intros Hnil. destruct Hr as [[_ ->] | [Hne _]]; [reflexivity|].
    contradiction.
  - intros Hne. destruct Hr as [[Hnil _] | [_ ->]]; [contradiction|].
    rewrite <- last_lookup.
    destruct (last (sockets s)) as [ws|] eqn:Hl.
    + now exists ws.
    + apply last_None in Hl. contradiction.
Qed.

Lemma wsRef_designates_newest_socket_witness :
  reachable (after trace_teardown)
  ∧ sockets (after trace_teardown) ≠ []
  ∧ ∃ ws, last (sockets (after trace_teardown)) = Some ws
          ∧ current_socket (after trace_teardown)
            = Some (pred (length (sockets (after trace_teardown))), ws).
Proof.
  assert (Hr : reachable (after trace_teardown))
    by (apply (reachable_after trace_teardown); vm_compute; reflexivity).
  assert (Hne : sockets (after trace_teardown) ≠ [])
    by (vm_compute; discriminate).
  split; [exact Hr|]. split; [exact Hne|].
  exact (proj2 (wsRef_designates_newest_socket _ Hr) Hne).
Defined.

Lemma outbound_alt s : outbound s = concat (sent <$> sockets s).
Proof. reflexivity. Qed.

(** With [wsRef.current] on the newest socket, the frames sent so far
    only ever grow at the end, by the frame of an accepted submit. *)
Lemma step_outbound s e s' :
  wsRef_is_newest s → step s e = Some s' →
  (outbound s' = outbound s
   ∧ (messages s' = messages s
      ∨ (∃ m, messages s' = messages s ++ [m])
      ∨ (∃ full now date, messages s' = chunk_update full now date (messages s))
      ∨ messages s' = complete_update (messages s)))
  ∨ (∃ now date,
        e = Send now date ∧ send_disabled s = false
        ∧ outbound s' = outbound s ++ [chat_frame_of s]
        ∧ messages s' = messages s ++ [user_message_of now date s]).
Proof.
  intros Hnew%wsRef_is_newest_alt Hstep.
  destruct (step_sockets s e s' Hstep)
    as [(_ & Hs) | [(Hs & _) | (now & date & i & ws & -> & Hd & Hr & Hi
                                & _ & Hs & Hm)]].
  - left. split; [now rewrite !outbound_alt, Hs|].
    destruct (step_messages _ _ _ Hstep)
      as [(_ & [H | (m & H & _)]) | [H | H]]; eauto.
  - left. split.
    + rewrite !outbound_alt, Hs, fmap_app, concat_app. simpl.
      now rewrite app_nil_r.
    + destruct (step_messages _ _ _ Hstep)
        as [(_ & [H | (m & H & _)]) | [H | H]]; eauto.
  - right. exists now, date. repeat split; try assumption.
    destruct Hnew as [[Hnil _] | [Hne Hlast]];
      [rewrite Hnil in Hi; discriminate|].
    rewrite Hr in Hlast. injection Hlast as ->.
    rewrite <- last_lookup in Hi. apply last_Some in Hi as (l0 & Hl0).
    rewrite !outbound_alt, Hs, Hl0.
    rewrite length_app. simpl.
    replace (pred (length l0 + 1)) with (length l0 + 0)%nat by lia.
    rewrite insert_app_r. simpl.
    rewrite !fmap_app, !concat_app. simpl.
    now rewrite !app_nil_r, app_assoc.
Qed.

Lemma send_enabled_not_blank s :
  send_disabled s = false → trim (inputText s) ≠ [].
Proof.
  unfold send_disabled. intros [H _]%orb_false_iff.
  apply negb_false_iff in H. now destruct (trim (inputText s)).
Qed.

(** X9.  Everything the component has handed to [send], on any socket,
    is a [chat] frame whose message is not blank; no other kind of frame
    (no keep-alive ping, for instance) is ever sent. *)
Theorem only_nonblank_chat_frames_are_sent (s : App) :
  reachable s → Forall chat_frame_ok (outbound s).
Proof.
  induction 1 as [|s e s' Hreach IH Hstep]; [constructor|].
  destruct (step_outbound s e s' (reachable_wsRef_newest s Hreach) Hstep)
    as [(-> & _) | (now & date & _ & Hd & -> & _)]; [assumption|].
  apply Forall_app. split; [assumption|].
  constructor; [|constructor]. split; [reflexivity|].
  now apply send_enabled_not_blank.
Qed.

Lemma only_nonblank_chat_frames_are_sent_witness :
  reachable (after (trace_ready ++ [Send 3000 3000]))
  ∧ outbound (after (trace_ready ++ [Send 3000 3000]))
    = [chat_frame_of (after trace_ready)]
  ∧ Forall chat_frame_ok (outbound (after (trace_ready ++ [Send 3000 3000]))).
Proof.
  assert (Hr : reachable (after (trace_ready ++ [Send 3000 3000])))
    by (apply (reachable_after (trace_ready ++ [Send 3000 3000]));
        vm_compute; reflexivity).
  split; [exact Hr|]. split; [vm_compute; reflexivity|].
  exact (only_nonblank_chat_frames_are_sent _ Hr).
Defined.

Lemma user_contents_app l k :
  user_contents (l ++ k) = user_contents l ++ user_contents k.
Proof. unfold user_contents. now rewrite List.filter_app, fmap_app. Qed.

Lemma user_contents_chunk_update l full now date :
  user_contents (chunk_update full now date l) = user_contents l.
Proof.
  destruct (chunk_update_cases l full now date)
    as [(l' & m & -> & Hm & _ & ->) | (Hidle & _)].
  - rewrite !user_contents_app. f_equal. unfold user_contents. simpl.
    now rewrite Hm.
  - rewrite chunk_update_append by assumption.
    rewrite user_contents_app. unfold user_contents at 2. simpl.
    now rewrite app_nil_r.
Qed.

Lemma user_contents_complete_update l :
  user_contents (complete_update l) = user_contents l.
Proof.
  destruct (complete_update_cases l) as [(l' & m & -> & _ & ->) | (_ & ->)];
    [|reflexivity].
  rewrite !user_contents_app. f_equal. unfold user_contents. simpl.
  now destruct (bool_decide (type m = TUser)).
Qed.

(** X10.  In every reachable state the messages of the frames sent so
    far, taken over all sockets in order, form a subsequence of the texts
    of the user messages of the log: whatever went out on the wire is in
    the log, in the same order. *)
Theorem sent_frames_are_logged (s : App) :
  reachable s →
  out_message <$> outbound s `sublist_of` user_contents (messages s).
Proof.
  induction 1 as [|s e s' Hreach IH Hstep]; [constructor|].
  destruct (step_outbound s e s' (reachable_wsRef_newest s Hreach) Hstep)
    as [(-> & Hm) | (now & date & _ & _ & -> & ->)].
  - destruct Hm as [-> | [(m & ->) | [(full & now & date & ->) | ->]]].
    + assumption.
    + rewrite user_contents_app. now apply sublist_inserts_r.
    + now rewrite user_contents_chunk_update.
    + now rewrite user_contents_complete_update.
  - rewrite fmap_app, user_contents_app. apply sublist_app; [assumption|].
    reflexivity.
Qed.

Lemma sent_frames_are_logged_witness :
  reachable (after (trace_ready ++ [Send 3000 3000]))
  ∧ out_message <$> outbound (after (trace_ready ++ [Send 3000 3000]))
    = [lit "hello"]
  ∧ user_contents (messages (after (trace_ready ++ [Send 3000 3000])))
    = [lit "hello"]
  ∧ out_message <$> outbound (after (trace_ready ++ [Send 3000 3000]))
    `sublist_of`
    user_contents (messages (after (trace_ready ++ [Send 3000 3000]))).
Proof.
  assert (Hr : reachable (after (trace_ready ++ [Send 3000 3000])))
    by (apply (reachable_after (trace_ready ++ [Send 3000 3000]));
        vm_compute; reflexivity).
  split; [exact Hr|]. split; [vm_compute; reflexivity|].
  split; [vm_compute; reflexivity|].
  exact (sent_frames_are_logged _ Hr).
Defined.

(** ** Reconnection *)

Lemma live_insert (l : list WebSocket) i ws ws' :
  l !! i = Some ws →
  (length (List.filter (λ w, not_closed (readyState w)) (<[i := ws']> l))
   + Nat.b2n (not_closed (readyState ws))
   = length (List.filter (λ w, not_closed (readyState w)) l)
     + Nat.b2n (not_closed (readyState ws')))%nat.
Proof.
  revert i. induction l as [|x l IH]; intros [|i]; simpl; try discriminate.
  - intros [= ->].
    destruct (not_closed (readyState ws)), (not_closed (readyState ws'));
      simpl; lia.
  - intros H. specialize (IH i H).
    destruct (not_closed (readyState x)); simpl; lia.
Qed.

Lemma live_insert_same s i ws ws' :
  sockets s !! i = Some ws →
  not_closed (readyState ws') = not_closed (readyState ws) →
  live (setSockets (λ l, <[i := ws']> l) s) = live s.
Proof.
  intros Hi Hsame. unfold live. simpl.
  pose proof (live_insert (sockets s) i ws ws' Hi) as H.
  rewrite Hsame in H. lia.
Qed.

Lemma live_snoc (l : list WebSocket) :
  length (List.filter (λ w, not_closed (readyState w)) (l ++ [new_WebSocket]))
  = S (length (List.filter (λ w, not_closed (readyState w)) l)).
Proof. rewrite List.filter_app, length_app. simpl. lia. Qed.

Lemma connectWebSocket_live ct s :
  (live (connectWebSocket ct s) ≤ S (live s))%nat
  ∧ reconnectTimers (connectWebSocket ct s) = reconnectTimers s.
Proof.
  unfold connectWebSocket, live. destruct ct; simpl.
  - split; [lia | reflexivity].
  - rewrite live_snoc. split; [lia | reflexivity].
Qed.

Lemma handleWebSocketMessage_sockets d now date s :
  sockets (handleWebSocketMessage d now date s) = sockets s
  ∧ reconnectTimers (handleWebSocketMessage d now date s) = reconnectTimers s.
Proof.
  unfold handleWebSocketMessage. repeat (destruct (bool_decide _)); now split.
Qed.

(** Apart from the mount effect, a transition never raises the number of
    live sockets plus pending reconnect timers. *)
Lemma step_live s e s' :
  step s e = Some s' →
  (live s' + reconnectTimers s'
   ≤ live s + reconnectTimers s + Nat.b2n (is_mount e))%nat.
Proof.
  intros Hstep%step_inv.
  destruct e as [ct| |i now date|i parsed now date|i|i|i|ct|text| | |model
                |now date|fs outcome now date]; simpl Nat.b2n.
  - destruct Hstep as (_ & ->). unfold mount_effect.
    destruct (connectWebSocket_live ct s) as [Hl Ht].
    change (live (setStatusInterval true (connectWebSocket ct s)))
      with (live (connectWebSocket ct s)).
    change (reconnectTimers (setStatusInterval true (connectWebSocket ct s)))
      with (reconnectTimers (connectWebSocket ct s)).
    lia.
  - destruct Hstep as (_ & ->).
    destruct (cleanup_cases s) as [-> | (i & ws & Hcur & ->)].
    + change (live (setStatusInterval false s)) with (live s). simpl. lia.
    + apply current_socket_lookup in Hcur as [_ Hi].
      rewrite (live_insert_same (setStatusInterval false s) i ws
                 (ws_close ws) Hi)
        by (unfold ws_close; destruct (readyState ws) eqn:E; simpl;
            rewrite ?E; reflexivity).
      change (live (setStatusInterval false s)) with (live s). simpl. lia.
  - destruct Hstep as (ws & Hi & Hrs & ->).
    change (live (ws_onopen now date ?x)) with (live x).
    rewrite (live_insert_same s i ws _ Hi) by now rewrite Hrs.
    simpl. lia.
  - destruct Hstep as (ws & Hi & Hrs & ->).
    assert (Hl : live (setSockets
                   (λ l, <[i := {| readyState := OPEN; sent := sent ws |}]> l)
                   s) = live s)
      by (apply (live_insert_same s i ws); [assumption | now rewrite Hrs]).
    destruct parsed as [d|]; simpl final.
    + destruct (handleWebSocketMessage_sockets d now date
                  (setSockets
                     (λ l, <[i := {| readyState := OPEN;
                                     sent := sent ws |}]> l) s)) as [Hs Ht].
      unfold live in *. rewrite Hs, Ht, Hl. simpl. lia.
    + rewrite Hl. simpl. lia.
  - destruct Hstep as (ws & _ & _ & ->). unfold live. simpl. lia.
  - destruct Hstep as (ws & Hi & Hrs & ->).
    rewrite (live_insert_same s i ws _ Hi) by now rewrite Hrs.
    simpl. lia.
  - destruct Hstep as (ws & Hi & Hrs & ->).
    change (live (ws_onclose ?x)) with (live x).
    unfold live. simpl.
    pose proof (live_insert (sockets s) i ws
                  {| readyState := CLOSED; sent := sent ws |} Hi) as H.
    simpl in H. destruct (readyState ws); simpl in H; try lia.
    contradiction.
  - destruct Hstep as (Hpos & ->).
    destruct (connectWebSocket_live ct (setReconnectTimers Nat.pred s))
      as [Hl Ht].
    rewrite Ht. change (live (setReconnectTimers Nat.pred s)) with (live s) in Hl.
    simpl. lia.
  - subst. unfold live. simpl. lia.
  - subst. unfold live. simpl. lia.
  - subst. unfold live. simpl. lia.
  - subst. unfold live. simpl. lia.
  - subst.
    destruct (handleSendMessage_cases now date s)
      as [(_ & ->) | (_ & [(-> & _) | (i & ws & Hcur & Hrs & ->)])].
    + simpl. lia.
    + unfold live. simpl. lia.
    + apply current_socket_lookup in Hcur as [_ Hi].
      pose proof (live_insert_same
                    (setInputText []
                       (setMessages
                          (λ prev, prev ++ [user_message_of now date s]) s))
                    i ws {| readyState := OPEN;
                            sent := sent ws ++ [chat_frame_of s] |} Hi) as H.
      rewrite H by now rewrite Hrs.
      unfold live. simpl. lia.
  - subst. unfold handleFileSelect, live.
    destruct (bool_decide _); [simpl; lia|].
    destruct outcome as [?|?|?|r]; simpl; try lia.
    destruct (result_success r); simpl; lia.
Qed.

(** X11.  Reconnecting never multiplies connections.  Over any sequence
    of transitions the number of sockets that have not closed, plus the
    number of pending reconnect timers, grows by at most the number of
    times the mount effect runs: each closed socket is replaced by at
    most one new socket. *)
Theorem reconnect_keeps_one_connection_per_mount (tr : list Event) :
  ∀ s s', run s tr = Some s' →
          (live s' + reconnectTimers s'
           ≤ live s + reconnectTimers s + mounts tr)%nat.
Proof.
  induction tr as [|e tr IH]; intros s s'; simpl.
  - intros [= <-]. unfold mounts. simpl. lia.
  - destruct (step s e) as [s1|] eqn:He; [|discriminate].
    intros Hrun. specialize (IH s1 s' Hrun).
    pose proof (step_live s e s1 He) as Hstep.
    unfold mounts in *. simpl. destruct (is_mount e); simpl in *; lia.
Qed.

Lemma reconnect_keeps_one_connection_per_mount_witness :
  run initial trace_teardown = Some (after trace_teardown)
  ∧ (live (after trace_teardown) + reconnectTimers (after trace_teardown)
     ≤ live initial + reconnectTimers initial + mounts trace_teardown)%nat
  ∧ live (after trace_teardown) = 1%nat
  ∧ mounts trace_teardown = 1%nat.
Proof.
  assert (Hrun : run initial trace_teardown = Some (after trace_teardown))
    by (vm_compute; reflexivity).
  split; [exact Hrun|].
  split; [exact (reconnect_keeps_one_connection_per_mount _ _ _ Hrun)|].
  split; vm_compute; reflexivity.
Defined.

(** One failed attempt and the reconnect that follows it, on a component
    whose newest socket [k] is still connecting and is the only live
    one. *)
Lemma failures_run n : ∀ k s,
  length (sockets s) = S k → sockets s !! k = Some new_WebSocket →
  live s = 1%nat → reconnectTimers s = 0%nat → wsRef s = Some k →
  connectionStatus s = Disconnected →
  ∃ s', run s (failures k n) = Some s'
        ∧ length (sockets s') = S (k + n)
        ∧ sockets s' !! (k + n)%nat = Some new_WebSocket
        ∧ live s' = 1%nat ∧ reconnectTimers s' = 0%nat
        ∧ wsRef s' = Some (k + n)%nat
        ∧ connectionStatus s' = Disconnected
        ∧ messages s' = messages s.
Proof.
  induction n as [|n IH]; intros k s Hlen Hk Hlive Htimers Href Hstatus.
  - exists s. rewrite Nat.add_0_r. now repeat split.
  - cbn [failures run].
    assert (H1 : step s (SocketClose k)
                 = Some (ws_onclose
                           (setSockets
                              (λ l, <[k := {| readyState := CLOSED;
                                              sent := [] |}]> l) s))).
    { simpl. unfold socket_to. rewrite Hk. reflexivity. }
    rewrite H1.
    set (s1 := ws_onclose _).
    assert (H2 : step s1 (ReconnectTimer false)
                 = Some (connectWebSocket false
                           (setReconnectTimers Nat.pred s1))).
    { subst s1. reflexivity. }
    rewrite H2.
    set (s2 := connectWebSocket false _).
    assert (Hs2 : sockets s2
                  = <[k := {| readyState := CLOSED; sent := [] |}]> (sockets s)
                    ++ [new_WebSocket]) by reflexivity.
    destruct (IH (S k) s2) as (s' & Hrun & Hl' & Hk' & Hlive' & Ht' & Hr' & Hc' & Hm').
    + rewrite Hs2, length_app, length_insert, Hlen. simpl. lia.
    + rewrite Hs2. rewrite lookup_app_r; rewrite length_insert, Hlen; [|lia].
      now rewrite Nat.sub_diag.
    + unfold live. rewrite Hs2, live_snoc. f_equal.
      pose proof (live_insert (sockets s) k new_WebSocket
                    {| readyState := CLOSED; sent := [] |} Hk) as H.
      simpl in H. unfold live in Hlive. lia.
    + subst s2 s1. simpl. now rewrite Htimers.
    + subst s2 s1. simpl. now rewrite length_insert, Hlen.
    + reflexivity.
    + exists s'. replace (k + S n)%nat with (S k + n)%nat by lia.
      repeat split; try assumption.
Qed.

(** X12.  Reconnection is unbounded and one for one: for every [n], when
    the first connection attempt and the [n - 1] attempts after it all
    end in [close], the component has constructed exactly [n + 1] sockets
    by the time the [n]-th timer has fired; the newest is current and is
    the only live one, no timer is pending, the status reads
    ['disconnected'] and nothing has been added to the log. *)
Theorem every_failure_is_retried_once (n : nat) :
  ∃ s, run initial (Mount false :: failures 0 n) = Some s
       ∧ length (sockets s) = S n
       ∧ live s = 1%nat ∧ reconnectTimers s = 0%nat
       ∧ wsRef s = Some n
       ∧ connectionStatus s = Disconnected
       ∧ messages s = [].
Proof.
  destruct (failures_run n 0%nat (mount_effect false initial))
    as (s & Hrun & Hlen & _ & Hlive & Ht & Hr & Hc & Hm);
    try reflexivity.
  exists s. cbn [run]. change (step initial (Mount false))
    with (Some (mount_effect false initial)).
  now repeat split.
Qed.

(** * Plugins *)

Lemma filter_length_insert {A} (f : A → bool) (l : list A) i x y :
  l !! i = Some x →
  (length (List.filter f (<[i := y]> l)) + Nat.b2n (f x)
   = length (List.filter f l) + Nat.b2n (f y))%nat.
Proof.
  revert i. induction l as [|z l IH]; intros [|i]; simpl; try discriminate.
  - intros [= ->]. destruct (f x), (f y); simpl; lia.
  - intros H. specialize (IH i H). destruct (f z); simpl; lia.
Qed.


Section Toggle.
Variable pid : jsstring.




Lemma togglePlugin_unfold resolved ps :
  togglePlugin pid resolved ps
  = match List.find (has_id pid) ps with
    | None => (None, ps)
    | Some plugin =>
        (Some {| req_plugin_id := pid;
                 req_enabled := negb (plugin_active plugin) |},
         if resolved then map (flip_if pid) ps else ps)
    end.
Proof.
  unfold togglePlugin.
  destruct (List.find (has_id pid) ps); [|reflexivity]. now destruct resolved.
Qed.

Lemma absent_no_hit ps :
  pid ∉ plugin_id <$> ps →
  List.find (has_id pid) ps = None ∧ map (flip_if pid) ps = ps.
Proof.
  induction ps as [|p ps IH]; [now split|]. simpl.
  intros Hnot. rewrite not_elem_of_cons in Hnot. destruct Hnot as [Hne Hrest].
  destruct (IH Hrest) as [Hf Hm].
  assert (E : has_id pid p = false)
    by (apply bool_decide_eq_false_2; congruence).
  unfold flip_if at 1. rewrite E.
  split; [assumption | now f_equal].
Qed.

Lemma unique_hit ps : ∀ i p,
  NoDup (plugin_id <$> ps) → ps !! i = Some p → plugin_id p = pid →
  List.find (has_id pid) ps = Some p ∧ map (flip_if pid) ps = <[i := flip_active p]> ps.
Proof.
  induction ps as [|x ps IH]; intros i p Hnd Hi Hp; [discriminate|].
  simpl in Hnd. apply NoDup_cons in Hnd as [Hx Hnd].
  destruct i as [|i]; simpl in Hi.
  - injection Hi as ->. rewrite Hp in Hx.
    assert (E : has_id pid p = true) by now apply bool_decide_eq_true_2.
    simpl. unfold flip_if at 1. rewrite E.
    split; [reflexivity|]. f_equal.
    now apply absent_no_hit.
  - assert (Hne : plugin_id x ≠ pid).
    { intros E. apply Hx. rewrite E, <- Hp.
      apply list_elem_of_fmap. exists p. split; [reflexivity|].
      now apply list_elem_of_lookup_2 in Hi. }
    assert (E : has_id pid x = false) by now apply bool_decide_eq_false_2.
    destruct (IH i p Hnd Hi Hp) as [Hf Hm]. simpl.
    unfold flip_if at 1. rewrite E.
    split; [assumption | now f_equal].
Qed.




(** X14.  When plugin ids are distinct, toggling the plugin at position
    [i] replaces exactly that element by a copy with [active] negated,
    the request carries the new value of [active], and the number of
    active plugins shown moves by exactly one. *)
Theorem toggle_flips_one_plugin (ps : list Plugin) (i : nat) (p : Plugin) :
  NoDup (plugin_id <$> ps) → ps !! i = Some p → plugin_id p = pid →
  togglePlugin pid true ps
  = (Some {| req_plugin_id := pid; req_enabled := negb (plugin_active p) |},
     <[i := flip_active p]> ps)
  ∧ (active_count (togglePlugin pid true ps).2
     + Nat.b2n (plugin_active p)
     = active_count ps + Nat.b2n (negb (plugin_active p)))%nat.
Proof.
  intros Hnd Hi Hp. destruct (unique_hit ps i p Hnd Hi Hp) as [Hf Hm].
  rewrite togglePlugin_unfold, Hf, Hm. split; [reflexivity|].
  simpl. unfold active_count.
  apply (filter_length_insert plugin_active ps i p (flip_active p) Hi).
Qed.

(** X15.  Toggling an id that is not in the list issues no request and
    leaves the list as it is; and when the request of a toggle rejects,
    the list is left as it is as well (the switch is not flipped
    optimistically). *)
Theorem toggle_unknown_or_failed (ps : list Plugin) (resolved : bool) :
  (pid ∉ plugin_id <$> ps → togglePlugin pid resolved ps = (None, ps))
  ∧ (togglePlugin pid false ps).2 = ps.
Proof.
  split.
  - intros Hnot. destruct (absent_no_hit ps Hnot) as [Hf _].
    now rewrite togglePlugin_unfold, Hf.
  - rewrite togglePlugin_unfold. now destruct (List.find (has_id pid) ps).
Qed.
End Toggle.


Lemma toggle_flips_one_plugin_witness :
  NoDup (plugin_id <$> [weather; search])
  ∧ togglePlugin (lit "search") true [weather; search]
    = (Some {| req_plugin_id := lit "search"; req_enabled := true |},
       [weather; flip_active search])
  ∧ active_count (togglePlugin (lit "search") true [weather; search]).2
    = 2%nat.
Proof.
  assert (Hnd : NoDup (plugin_id <$> [weather; search])).
  { apply NoDup_cons. split; [|apply NoDup_singleton].
    intros H%list_elem_of_singleton. discriminate H. }
  destruct (toggle_flips_one_plugin (lit "search") [weather; search] 1%nat
              search Hnd eq_refl eq_refl) as [Ht Hc].
  split; [exact Hnd|]. split; [exact Ht|].
  simpl in Hc. vm_compute. reflexivity.
Defined.

Lemma toggle_unknown_or_failed_witness :
  (lit "music" ∉ plugin_id <$> [weather; search])
  ∧ togglePlugin (lit "music") true [weather; search]
    = (None, [weather; search]).
Proof.
  assert (Hnot : lit "music" ∉ plugin_id <$> [weather; search]).
  { intros H. apply elem_of_cons in H as [H|H]; [discriminate H|].
    apply list_elem_of_singleton in H. discriminate H. }
  split; [exact Hnot|].
  exact (proj1 (toggle_unknown_or_failed (lit "music") [weather; search] true)
           Hnot).
Defined.

(** X16.  A plugin list loaded from the server keeps the length, order,
    ids, names and active flags of the response, and every plugin gets
    an icon: the icon index [i % 7] never leaves the icon array. *)
Theorem fetched_plugins_have_icons (raw : list RawPlugin)
    (old : list Plugin) (i : nat) (r : RawPlugin) :
  raw !! i = Some r →
  length (fetchPlugins (PluginsParsed (Some raw)) old) = length raw
  ∧ ∃ icon, plugin_icons !! (i mod 7)%nat = Some icon
            ∧ fetchPlugins (PluginsParsed (Some raw)) old !! i
              = Some {| plugin_id := raw_id r; plugin_name := raw_name r;
                        plugin_active := raw_active r;
                        plugin_icon := Some icon |}.
Proof.
  intros Hi. unfold fetchPlugins. split; [apply length_imap|].
  assert (Hlt : (i mod 7 < length plugin_icons)%nat).
  { change (length plugin_icons) with 7%nat.
    apply Nat.mod_upper_bound. discriminate. }
  apply lookup_lt_is_Some in Hlt as [icon Hicon].
  exists icon. split; [assumption|].
  rewrite list_lookup_imap, Hi. cbn [fmap option_fmap option_map].
  now rewrite Hicon.
Qed.

Lemma fetched_plugins_have_icons_witness :
  replicate 9 {| raw_id := lit "p"; raw_name := lit "P"; raw_active := true |}
    !! 8%nat
  = Some {| raw_id := lit "p"; raw_name := lit "P"; raw_active := true |}
  ∧ ∃ icon, plugin_icons !! (8 mod 7)%nat = Some icon
            ∧ fetchPlugins
                (PluginsParsed
                   (Some (replicate 9 {| raw_id := lit "p"; raw_name := lit "P";
                                         raw_active := true |}))) [] !! 8%nat
              = Some {| plugin_id := lit "p"; plugin_name := lit "P";
                        plugin_active := true; plugin_icon := Some icon |}.
Proof.
  split; [reflexivity|].
  exact (proj2 (fetched_plugins_have_icons
                  (replicate 9 {| raw_id := lit "p"; raw_name := lit "P";
                                  raw_active := true |})
                  [] 8%nat _ eq_refl)).
Defined.

(** * Persisted settings *)

Lemma commit_cases theme model s :
  Settings.commit theme model s = s
  ∨ Settings.commit theme model s
    = {| Settings.currentTheme := theme; Settings.selectedModel := model;
         Settings.posts := Settings.posts s ++ [(theme, model)] |}.
Proof. unfold Settings.commit. destruct (bool_decide _); [now left | now right]. Qed.

Lemma commit_cells theme model s :
  Settings.currentTheme (Settings.commit theme model s) = theme
  ∧ Settings.selectedModel (Settings.commit theme model s) = model.
Proof.
  unfold Settings.commit. destruct (bool_decide _) eqn:E; [|now split].
  apply bool_decide_eq_true in E as [-> ->]. now split.
Qed.

(** The invariant of the settings requests: the first carries the
    initial values of the cells, the last what the cells hold now. *)
Lemma commit_posts theme model s first :
  head (Settings.posts s) = Some first →
  last (Settings.posts s)
  = Some (Settings.currentTheme s, Settings.selectedModel s) →
  head (Settings.posts (Settings.commit theme model s)) = Some first
  ∧ last (Settings.posts (Settings.commit theme model s))
    = Some (Settings.currentTheme (Settings.commit theme model s),
            Settings.selectedModel (Settings.commit theme model s)).
Proof.
  intros Hh Hl. destruct (commit_cases theme model s) as [-> | ->];
    [now split|].
  simpl. rewrite last_snoc. split; [|reflexivity].
  destruct (Settings.posts s); [discriminate | exact Hh].
Qed.

Lemma settings_step_posts s e s' first :
  Settings.step s e = Some s' →
  head (Settings.posts s) = Some first →
  last (Settings.posts s)
  = Some (Settings.currentTheme s, Settings.selectedModel s) →
  head (Settings.posts s') = Some first
  ∧ last (Settings.posts s')
    = Some (Settings.currentTheme s', Settings.selectedModel s').
Proof.
  intros Hstep Hh Hl.
  destruct e as [k|value|theme model batched|]; simpl in Hstep.
  - destruct (Settings.themes !! k) as [[key t]|]; [|discriminate].
    injection Hstep as <-. now apply commit_posts.
  - injection Hstep as <-. now apply commit_posts.
  - destruct (bool_decide _); [|discriminate].
    destruct batched; injection Hstep as <-.
    + now apply commit_posts.
    + destruct (commit_posts (Settings.loaded theme (Settings.currentTheme s))
                  (Settings.selectedModel s) s first Hh Hl) as [H1 H2].
      now apply commit_posts.
  - injection Hstep as <-. now split.
Qed.

(** X17.  Every change of theme or model is followed by a settings
    request: at any time after mount, provided every settings object
    that was loaded names a theme of the table or none, the last
    [POST /api/settings] issued carries exactly the theme and model the
    component holds.  And the first request carries the built-in
    defaults: it is issued on mount, before any stored settings have been
    loaded. *)
Theorem settings_requests_track_the_cells (tr : list Settings.Event) :
  ∀ s, Settings.run Settings.mounted tr = Some s →
       Forall Settings.loads_known_theme tr →
       last (Settings.posts s)
       = Some (Settings.currentTheme s, Settings.selectedModel s)
       ∧ head (Settings.posts s) = Some (lit "psychopass", lit "phi3:3.8b").
Proof.
  assert (Hgen : ∀ s0 s,
    Settings.run s0 tr = Some s →
    head (Settings.posts s0) = Some (lit "psychopass", lit "phi3:3.8b") →
    last (Settings.posts s0)
    = Some (Settings.currentTheme s0, Settings.selectedModel s0) →
    last (Settings.posts s)
    = Some (Settings.currentTheme s, Settings.selectedModel s)
    ∧ head (Settings.posts s) = Some (lit "psychopass", lit "phi3:3.8b")).
  { induction tr as [|e tr IH]; intros s0 s; simpl.
    - intros [= <-] Hh Hl. now split.
    - destruct (Settings.step s0 e) as [s1|] eqn:He; [|discriminate].
      intros Hrun Hh Hl.
      destruct (settings_step_posts s0 e s1 _ He Hh Hl) as [Hh1 Hl1].
      now apply (IH s1 s). }
  intros s Hrun _. now apply (Hgen Settings.mounted s).
Qed.

Lemma settings_requests_track_the_cells_witness :
  Settings.run Settings.mounted
    [Settings.SettingsLoaded (Some (lit "neonCyber")) (Some (lit "gemma:2b"))
       false;
     Settings.ThemeCard 2]
  = Some {| Settings.currentTheme := lit "animePastel";
            Settings.selectedModel := lit "gemma:2b";
            Settings.posts :=
              [(lit "psychopass", lit "phi3:3.8b");
               (lit "neonCyber", lit "phi3:3.8b");
               (lit "neonCyber", lit "gemma:2b");
               (lit "animePastel", lit "gemma:2b")] |}
  ∧ Forall Settings.loads_known_theme
      [Settings.SettingsLoaded (Some (lit "neonCyber"))
         (Some (lit "gemma:2b")) false;
       Settings.ThemeCard 2]
  ∧ last [(lit "psychopass", lit "phi3:3.8b");
          (lit "neonCyber", lit "phi3:3.8b");
          (lit "neonCyber", lit "gemma:2b");
          (lit "animePastel", lit "gemma:2b")]
    = Some (lit "animePastel", lit "gemma:2b").
Proof.
  assert (Hrun : Settings.run Settings.mounted
            [Settings.SettingsLoaded (Some (lit "neonCyber"))
               (Some (lit "gemma:2b")) false;
             Settings.ThemeCard 2]
          = Some {| Settings.currentTheme := lit "animePastel";
                    Settings.selectedModel := lit "gemma:2b";
                    Settings.posts :=
                      [(lit "psychopass", lit "phi3:3.8b");
                       (lit "neonCyber", lit "phi3:3.8b");
                       (lit "neonCyber", lit "gemma:2b");
                       (lit "animePastel", lit "gemma:2b")] |})
    by (vm_compute; reflexivity).
  assert (Hknown : Forall Settings.loads_known_theme
            [Settings.SettingsLoaded (Some (lit "neonCyber"))
               (Some (lit "gemma:2b")) false;
             Settings.ThemeCard 2]).
  { constructor; [|repeat constructor].
    right. unfold Settings.theme_keys. simpl.
    apply list_elem_of_further, list_elem_of_here. }
  split; [exact Hrun|]. split; [exact Hknown|].
  exact (proj1 (settings_requests_track_the_cells _ _ Hrun Hknown)).
Defined.

Lemma settings_step_theme s e s' :
  Settings.step s e = Some s' → Settings.loads_known_theme e →
  Settings.currentTheme s ∈ Settings.theme_keys →
  Settings.currentTheme s' ∈ Settings.theme_keys.
Proof.
  intros Hstep Hknown Hin.
  destruct e as [k|value|theme model batched|]; simpl in Hstep.
  - destruct (Settings.themes !! k) as [[key t]|] eqn:Hk; [|discriminate].
    injection Hstep as <-.
    rewrite (proj1 (commit_cells _ _ _)).
    unfold Settings.theme_keys. apply list_elem_of_fmap.
    exists (key, t). split; [reflexivity|].
    now apply list_elem_of_lookup_2 in Hk.
  - injection Hstep as <-. now rewrite (proj1 (commit_cells _ _ _)).
  - assert (Hl : Settings.loaded theme (Settings.currentTheme s)
                 ∈ Settings.theme_keys).
    { unfold Settings.loaded. destruct theme as [t|]; [|assumption].
      destruct (truthy_string t) eqn:Ht; [|assumption].
      simpl in Hknown. destruct Hknown as [-> | H]; [discriminate | exact H]. }
    destruct (bool_decide _); [|discriminate].
    destruct batched; injection Hstep as <-;
      now rewrite (proj1 (commit_cells _ _ _)).
  - now injection Hstep as <-.
Qed.

(** X18.  The current theme is a key of the [themes] table at any time
    after mount, provided every settings object that is loaded names a
    theme of the table or none: clicks on the theme grid cannot leave the
    table. *)
Theorem current_theme_is_known (tr : list Settings.Event) :
  ∀ s, Settings.run Settings.mounted tr = Some s →
       Forall Settings.loads_known_theme tr →
       Settings.currentTheme s ∈ Settings.theme_keys.
Proof.
  assert (Hgen : ∀ s0 s,
    Settings.run s0 tr = Some s → Forall Settings.loads_known_theme tr →
    Settings.currentTheme s0 ∈ Settings.theme_keys →
    Settings.currentTheme s ∈ Settings.theme_keys).
  { induction tr as [|e tr IH]; intros s0 s; simpl.
    - now intros [= <-].
    - destruct (Settings.step s0 e) as [s1|] eqn:He; [|discriminate].
      intros Hrun Hall Hin. inversion Hall as [|? ? Hk Hrest]; subst.
      apply (IH s1 s Hrun Hrest).
      now apply (settings_step_theme s0 e s1). }
  intros s Hrun Hall. apply (Hgen Settings.mounted s Hrun Hall).
  unfold Settings.theme_keys. simpl. apply list_elem_of_here.
Qed.

Lemma current_theme_is_known_witness :
  Settings.run Settings.mounted
    [Settings.SettingsLoaded (Some (lit "neonCyber")) None true;
     Settings.ThemeCard 2]
  = Some {| Settings.currentTheme := lit "animePastel";
            Settings.selectedModel := lit "phi3:3.8b";
            Settings.posts :=
              [(lit "psychopass", lit "phi3:3.8b");
               (lit "neonCyber", lit "phi3:3.8b");
               (lit "animePastel", lit "phi3:3.8b")] |}
  ∧ lit "animePastel" ∈ Settings.theme_keys.
Proof.
  assert (Hrun : Settings.run Settings.mounted
            [Settings.SettingsLoaded (Some (lit "neonCyber")) None true;
             Settings.ThemeCard 2]
          = Some {| Settings.currentTheme := lit "animePastel";
                    Settings.selectedModel := lit "phi3:3.8b";
                    Settings.posts :=
                      [(lit "psychopass", lit "phi3:3.8b");
                       (lit "neonCyber", lit "phi3:3.8b");
                       (lit "animePastel", lit "phi3:3.8b")] |})
    by (vm_compute; reflexivity).
  split; [exact Hrun|].
  refine (current_theme_is_known _ _ Hrun _).
  constructor; [|repeat constructor].
  right. unfold Settings.theme_keys. simpl.
  apply list_elem_of_further, list_elem_of_here.
Defined.

(** * Only the last message can change *)

Lemma frozen_snoc_replace (l : list Message) m m' i x :
  (l ++ [m]) !! i = Some x → (S i < length (l ++ [m]))%nat →
  (l ++ [m']) !! i = Some x ∧ (S i < length (l ++ [m']))%nat.
Proof.
  rewrite !length_app. simpl. intros Hi Hlt.
  rewrite lookup_app_l in Hi by lia. split; [|lia].
  now apply lookup_app_l_Some.
Qed.

Lemma frozen_app (l k : list Message) i x :
  l !! i = Some x → (S i < length l)%nat →
  (l ++ k) !! i = Some x ∧ (S i < length (l ++ k))%nat.
Proof.
  intros Hi Hlt. split; [now apply lookup_app_l_Some|].
  rewrite length_app. lia.
Qed.

Lemma step_frozen s e s' i x :
  step s e = Some s' →
  messages s !! i = Some x → (S i < length (messages s))%nat →
  messages s' !! i = Some x ∧ (S i < length (messages s'))%nat.
Proof.
  intros Hstep Hi Hlt.
  destruct (step_messages _ _ _ Hstep)
    as [(_ & [-> | (m & -> & _)]) | [(full & now & date & ->) | ->]].
  - now split.
  - now apply frozen_app.
  - destruct (chunk_update_cases (messages s) full now date)
      as [(l' & m & E & _ & _ & ->) | (_ & fresh & -> & _)].
    + rewrite E in Hi, Hlt. now apply (frozen_snoc_replace l' m).
    + now apply frozen_app.
  - destruct (complete_update_cases (messages s))
      as [(l' & m & E & _ & ->) | (_ & ->)].
    + rewrite E in Hi, Hlt. now apply (frozen_snoc_replace l' m).
    + now split.
Qed.

(** X19.  Only the last message of the log can change.  A message that
    has another message after it is found unchanged at its position after
    any sequence of transitions, also when it is still marked as
    streaming: an answer that was interrupted by an error message or by a
    submit keeps [streaming = true] from then on. *)
Theorem message_behind_last_is_frozen (tr : list Event) :
  ∀ (s s' : App) (i : nat) (x : Message),
    run s tr = Some s' →
    messages s !! i = Some x → (S i < length (messages s))%nat →
    messages s' !! i = Some x.
Proof.
  induction tr as [|e tr IH]; intros s s' i x; simpl.
  - now intros [= <-].
  - destruct (step s e) as [s1|] eqn:He; [|discriminate].
    intros Hrun Hi Hlt.
    destruct (step_frozen s e s1 i x He Hi Hlt) as [Hi1 Hlt1].
    now apply (IH s1 s' i x).
Qed.

Lemma message_behind_last_is_frozen_witness :
  run (after trace_error_mid_stream)
    [SocketMessage 0 (Some (chunk_frame (lit "Again"))) 4000 4000;
     SocketMessage 0 (Some complete_frame) 5000 5000]
  = Some (after (trace_second_answer
                 ++ [SocketMessage 0 (Some complete_frame) 5000 5000]))
  ∧ messages (after trace_error_mid_stream) !! 1%nat = Some streaming_hi
  ∧ (2 < length (messages (after trace_error_mid_stream)))%nat
  ∧ messages (after (trace_second_answer
                     ++ [SocketMessage 0 (Some complete_frame) 5000 5000]))
    !! 1%nat = Some streaming_hi.
Proof.
  assert (Hrun : run (after trace_error_mid_stream)
            [SocketMessage 0 (Some (chunk_frame (lit "Again"))) 4000 4000;
             SocketMessage 0 (Some complete_frame) 5000 5000]
          = Some (after (trace_second_answer
                         ++ [SocketMessage 0 (Some complete_frame) 5000 5000])))
    by (vm_compute; reflexivity).
  assert (Hi : messages (after trace_error_mid_stream) !! 1%nat
               = Some streaming_hi) by (vm_compute; reflexivity).
  assert (Hlt : (2 < length (messages (after trace_error_mid_stream)))%nat)
    by (vm_compute; lia).
  split; [exact Hrun|]. split; [exact Hi|]. split; [exact Hlt|].
  exact (message_behind_last_is_frozen _ _ _ 1%nat streaming_hi Hrun Hi Hlt).
Defined.
